(** * Expense tracker: the cleaning, analysis and rule pipeline of [app.py]

    A shallow embedding of the agents of [src/app.py] (CleaningAgent,
    AnalysisAgent, DecisionAgent, RecommendationAgent), of the record
    store kept in [st.session_state.data] and of its CSV export and
    import, followed by the properties the specification states about
    them.

    Amounts are exact rationals ([Qc]): the sums and comparisons of the
    source are read under exact arithmetic, a number is not split into
    integer and float, and the floats [nan] and [inf] are not among the
    amounts.  A pandas cell is a dynamically typed [value]; the one
    missing marker [NA] stands for [None], [NaN] and [NaT], which [isna]
    does not tell apart. *)

From Stdlib Require Import ZArith QArith Qcanon List String Ascii Bool Lia Permutation Sorted.
Import ListNotations.
Local Open Scope string_scope.
Local Open Scope Z_scope.

(** ** Exceptions and results *)

Inductive exn := ValueError | TypeError | KeyError | OutOfBoundsDatetime.

Inductive result (A : Type) :=
| Ok (a : A)
| Raise (e : exn).
Arguments Ok {A} a.
Arguments Raise {A} e.

Definition bind {A B} (m : result A) (k : A -> result B) : result B :=
  match m with
  | Ok a => k a
  | Raise e => Raise e
  end.

Notation "x <- m ;; k" := (bind m (fun x => k))
  (at level 61, m at next level, right associativity).

(** A column conversion ([astype], [to_datetime]) converts every cell or
    raises at the first cell that fails. *)
Fixpoint traverse {A B} (f : A -> result B) (l : list A) : result (list B) :=
  match l with
  | [] => Ok []
  | a :: l' => b <- f a ;; bs <- traverse f l' ;; Ok (b :: bs)
  end.

(** ** Calendar dates and timestamps *)

(** [datetime.date]. *)
Record pydate := mkdate { year : Z; mon : Z; day : Z }.

(** [pandas.Timestamp]: a date and the nanoseconds elapsed in that day. *)
Record Timestamp := mkts { ts_date : pydate; ts_nanos : Z }.

Definition is_leap (y : Z) : bool :=
  ((y mod 4 =? 0) && negb (y mod 100 =? 0)) || (y mod 400 =? 0).

Definition days_in_month (y m : Z) : Z :=
  if m =? 2 then (if is_leap y then 29 else 28)
  else if (m =? 4) || (m =? 6) || (m =? 9) || (m =? 11) then 30
  else 31.

Definition valid_date (d : pydate) : bool :=
  (1 <=? year d) && (year d <=? 9999) &&
  (1 <=? mon d) && (mon d <=? 12) &&
  (1 <=? day d) && (day d <=? days_in_month (year d) (mon d)).

(** Order-preserving key of a timestamp: yyyymmdd followed by the
    fourteen digits of the nanoseconds of the day. *)
Definition ts_ord (t : Timestamp) : Z :=
  ((year (ts_date t) * 100 + mon (ts_date t)) * 100 + day (ts_date t))
  * 100000000000000 + ts_nanos t.

(** [Timestamp.min] is 1677-09-21 00:12:43.145224193 and [Timestamp.max]
    is 2262-04-11 23:47:16.854775807 (64-bit nanoseconds since 1970). *)
Definition ts_min_ord : Z := 16770921 * 100000000000000 + 763145224193.
Definition ts_max_ord : Z := 22620411 * 100000000000000 + 85636854775807.

Definition valid_timestamp (t : Timestamp) : bool :=
  valid_date (ts_date t) &&
  (0 <=? ts_nanos t) && (ts_nanos t <? 86400000000000) &&
  (ts_min_ord <=? ts_ord t) && (ts_ord t <=? ts_max_ord).

(** ** Cells *)

Inductive value :=
| NA
| Str (s : string)
| Num (q : Qc)
| Date (d : pydate)
| Ts (t : Timestamp).

Definition isna (v : value) : bool :=
  match v with
  | NA => true
  | _ => false
  end.

Definition pydate_eq_dec (a b : pydate) : {a = b} + {a <> b}.
Proof. decide equality; apply Z.eq_dec. Defined.

Definition Timestamp_eq_dec (a b : Timestamp) : {a = b} + {a <> b}.
Proof. decide equality; [apply Z.eq_dec | apply pydate_eq_dec]. Defined.

Definition value_eq_dec (a b : value) : {a = b} + {a <> b}.
Proof.
  decide equality;
    [apply string_dec | apply Qc_eq_dec | apply pydate_eq_dec | apply Timestamp_eq_dec].
Defined.

(** ** Decimal and padded printing *)

Definition digit_char (d : Z) : ascii := ascii_of_nat (48 + Z.to_nat d).

(** The [w] lowest decimal digits of [n], most significant first. *)
Fixpoint zero_pad (w : nat) (n : Z) : string :=
  match w with
  | O => ""
  | S w' => zero_pad w' (n / 10) ++ String (digit_char (n mod 10)) ""
  end.

(** The decimal digits of a non-negative [n] beyond the [w] lowest ones;
    [fuel] bounds the number of digits. *)
Fixpoint high_digits (fuel : nat) (n : Z) : string :=
  match fuel with
  | O => ""
  | S f => if n <=? 0 then "" else high_digits f (n / 10) ++ String (digit_char (n mod 10)) ""
  end.

(** [n] in decimal, zero-padded on the left to at least [w] digits. *)
Definition pad_decimal (w : nat) (n : Z) : string :=
  high_digits (Z.to_nat (Z.log2 n + 1)) (n / 10 ^ Z.of_nat w) ++ zero_pad w n.

(** [date.isoformat()], also what [str] and [to_csv] print for a date. *)
Definition isoformat (d : pydate) : string :=
  pad_decimal 4 (year d) ++ "-" ++ zero_pad 2 (mon d) ++ "-" ++ zero_pad 2 (day d).

(** [strftime]: [%Y] is the year padded to four digits, [%m] the month
    padded to two, [%d] the day padded to two, [%%] a percent sign; any
    other character is copied. *)
Fixpoint strftime (fmt : string) (t : Timestamp) : string :=
  match fmt with
  | EmptyString => ""
  | String "%" (String c rest as tl) =>
      if Ascii.eqb c "Y" then pad_decimal 4 (year (ts_date t)) ++ strftime rest t
      else if Ascii.eqb c "m" then zero_pad 2 (mon (ts_date t)) ++ strftime rest t
      else if Ascii.eqb c "d" then zero_pad 2 (day (ts_date t)) ++ strftime rest t
      else if Ascii.eqb c "%" then String "%" (strftime rest t)
      else String "%" (strftime tl t)
  | String c rest => String c (strftime rest t)
  end.

(** ** Conversions between text and values

    What pandas and Python accept as the text of a number or of a date,
    and how they print a float, is taken as an interface: every theorem
    below holds for all such conversions.
    - [float_of_str s]: the finite number [float(s)], [None] when
      [float(s)] raises [ValueError]; a text that [float] reads as [nan]
      or [inf] has no number here, and the statements that depend on it
      ask for amounts that are numbers;
    - [datetime_of_str s]: the timestamp [pd.to_datetime] reads in [s]
      taken on its own; [None] when it raises, [Some None] when [s] is a
      missing-date marker and the result is [NaT];
    - [datetime_of_num q]: the timestamp [q] nanoseconds after the epoch,
      [None] when that is out of bounds;
    - [float_repr q]: [str(q)] for a float, as f-strings and [to_csv]
      print it;
    - [csv_number s]: the number [read_csv] infers from the field [s],
      [None] when the field is not numeric. *)
Class Conversions := {
  float_of_str : string -> option Qc;
  datetime_of_str : string -> option (option Timestamp);
  datetime_of_num : Qc -> option Timestamp;
  float_repr : Qc -> string;
  csv_number : string -> option Qc
}.

(** ** Frames

    A frame is the list of its rows, each carrying its index label.  The
    store has the four object columns of [pd.DataFrame(columns=[...])];
    the frame [clean] returns has a [float64] amount column, a
    [datetime64] date column ([None] is [NaT]) and the derived [month]
    column ([None] is [NaN]). *)

Module Raw.
Record row := mk {
  label : Z;
  date : value;
  amount : value;
  category : value;
  description : value
}.
End Raw.

Module Clean.
Record row := mk {
  label : Z;
  date : option Timestamp;
  amount : Qc;
  category : value;
  description : value;
  month : option string
}.
End Clean.

(** The columns [clean] reads, as cells, from either kind of frame;
    [col_extra_na] tells whether a further column of the row is missing. *)
Class Columns (R : Type) := {
  col_label : R -> Z;
  col_date : R -> value;
  col_amount : R -> value;
  col_category : R -> value;
  col_description : R -> value;
  col_extra_na : R -> bool
}.

#[export] Instance Raw_columns : Columns Raw.row := {
  col_label := Raw.label;
  col_date := Raw.date;
  col_amount := Raw.amount;
  col_category := Raw.category;
  col_description := Raw.description;
  col_extra_na := fun _ => false
}.

Definition cell_of_date (d : option Timestamp) : value :=
  match d with
  | Some t => Ts t
  | None => NA
  end.

Definition cell_of_text (s : option string) : value :=
  match s with
  | Some s => Str s
  | None => NA
  end.

#[export] Instance Clean_columns : Columns Clean.row := {
  col_label := Clean.label;
  col_date := fun r => cell_of_date (Clean.date r);
  col_amount := fun r => Num (Clean.amount r);
  col_category := Clean.category;
  col_description := Clean.description;
  col_extra_na := fun r => isna (cell_of_text (Clean.month r))
}.

Section Cleaning.
Context {conv : Conversions}.
Context {R : Type} {cols : Columns R}.

(** A row with a missing cell in any column. *)
Definition row_isna (r : R) : bool :=
  isna (col_date r) || isna (col_amount r) || isna (col_category r)
  || isna (col_description r) || col_extra_na r.

(** [df.dropna()]: the rows without a missing cell, labels kept. *)
Definition dropna (df : list R) : list R :=
  filter (fun r => negb (row_isna r)) df.

(** One cell of [astype(float)]; a missing cell does not reach it, the
    rows that have one are dropped before.  A text is converted by
    [float_of_str], which has no number for the spellings of [nan] and
    [inf]. *)
Definition astype_float (v : value) : result Qc :=
  match v with
  | Num q => Ok q
  | Str s =>
      match float_of_str s with
      | Some q => Ok q
      | None => Raise ValueError
      end
  | NA | Date _ | Ts _ => Raise TypeError
  end.

Definition check_timestamp (t : Timestamp) : result (option Timestamp) :=
  if valid_timestamp t then Ok (Some t) else Raise OutOfBoundsDatetime.

(** One cell of [pd.to_datetime], read on its own.  A pandas that
    settles on one format for a column whose first date is text is
    stricter on the other cells of that column: it raises on those that
    do not follow that format. *)
Definition to_datetime (v : value) : result (option Timestamp) :=
  match v with
  | NA => Ok None
  | Ts t => check_timestamp t
  | Date d => check_timestamp (mkts d 0)
  | Str s =>
      match datetime_of_str s with
      | Some (Some t) => check_timestamp t
      | Some None => Ok None
      | None => Raise ValueError
      end
  | Num q =>
      match datetime_of_num q with
      | Some t => check_timestamp t
      | None => Raise OutOfBoundsDatetime
      end
  end.

(** The frame with its amount and date columns replaced and the month
    column derived from the new dates. *)
Fixpoint assign (df : list R) (amounts : list Qc) (dates : list (option Timestamp))
  : list Clean.row :=
  match df, amounts, dates with
  | r :: df', a :: amounts', d :: dates' =>
      Clean.mk (col_label r) d a (col_category r) (col_description r)
               (option_map (strftime "%Y-%m") d)
      :: assign df' amounts' dates'
  | _, _, _ => []
  end.

(** [CleaningAgent.clean]. *)
Definition clean (df : list R) : result (list Clean.row) :=
  let df := dropna df in
  amounts <- traverse astype_float (map col_amount df) ;;
  dates <- traverse to_datetime (map col_date df) ;;
  Ok (assign df amounts dates).

End Cleaning.

(** ** Grouping and sums *)

Definition Qcltb (x y : Qc) : bool :=
  match (x ?= y)%Qc with
  | Lt => true
  | _ => false
  end.

Definition Qcleb (x y : Qc) : bool := negb (Qcltb y x).

(** [Series.sum()] of a float column. *)
Definition series_sum (xs : list Qc) : Qc := fold_right Qcplus (Q2Qc 0) xs.

Section Grouping.
Context {R K : Type}.
Variable eq_dec : forall a b : K, {a = b} + {a <> b}.
Variable leb : K -> K -> bool.
(** The grouping column; [None] is a missing key. *)
Variable key : R -> option K.

Fixpoint insert_key (k : K) (ks : list K) : list K :=
  match ks with
  | [] => [k]
  | x :: ks' => if leb k x then k :: ks else x :: insert_key k ks'
  end.

Definition sort_keys (ks : list K) : list K := fold_right insert_key [] ks.

Definition has_key (k : K) (r : R) : bool :=
  match key r with
  | Some k' => if eq_dec k' k then true else false
  | None => false
  end.

Definition present_keys (df : list R) : list K :=
  flat_map (fun r => match key r with Some k => [k] | None => [] end) df.

(** [df.groupby(column)]: one group per distinct key that is not
    missing, in sorted key order; a group holds its rows in frame
    order.  Rows with a missing key are in no group. *)
Definition groupby (df : list R) : list (K * list R) :=
  map (fun k => (k, filter (has_key k) df))
      (sort_keys (nodup eq_dec (present_keys df))).
End Grouping.

(** The key order of a mixed object column: numbers come first, by
    value, and text comes last, in code-point order.  The category cells
    of the store are text, numbers or missing; a key of another kind,
    which pandas does not order against a number, is placed between the
    two, all such keys alike. *)
Definition value_leb (a b : value) : bool :=
  match a, b with
  | Str s, Str t => String.leb s t
  | Str _, _ => false
  | _, Str _ => true
  | Num p, Num q => Qcleb p q
  | Num _, _ => true
  | _, Num _ => false
  | _, _ => true
  end.

Definition category_key (r : Clean.row) : option value :=
  match Clean.category r with
  | NA => None
  | v => Some v
  end.

Definition by_category : list Clean.row -> list (value * list Clean.row) :=
  groupby value_eq_dec value_leb category_key.

Definition by_period : list Clean.row -> list (string * list Clean.row) :=
  groupby string_dec String.leb Clean.month.

Definition amount_sum (g : list Clean.row) : Qc :=
  series_sum (map Clean.amount g).

Definition totals {K} (groups : list (K * list Clean.row)) : list (K * Qc) :=
  map (fun kg => (fst kg, amount_sum (snd kg))) groups.

(** [AnalysisAgent.analyze]: the total and the two frames of subtotals,
    each a list of (key, amount) rows. *)
Definition analyze (df : list Clean.row)
  : Qc * list (value * Qc) * list (string * Qc) :=
  let total := amount_sum df in
  let by_cat := totals (by_category df) in
  let by_month := totals (by_period df) in
  (total, by_cat, by_month).

(** ** Alerts and recommendation *)

Section Alerts.
Context {conv : Conversions}.

Definition clock (ns : Z) : string :=
  let s := ns / 1000000000 in
  let frac := ns mod 1000000000 in
  zero_pad 2 (s / 3600) ++ ":" ++ zero_pad 2 (s / 60 mod 60) ++ ":" ++ zero_pad 2 (s mod 60)
  ++ (if frac =? 0 then ""
      else if frac mod 1000 =? 0 then "." ++ zero_pad 6 (frac / 1000)
      else "." ++ zero_pad 9 frac).

(** [str(v)], as an f-string field prints a cell; a number is printed
    as a float (an integer cell, which the code prints without its
    fraction, is not told apart). *)
Definition py_str (v : value) : string :=
  match v with
  | NA => "nan"
  | Str s => s
  | Num q => float_repr q
  | Date d => isoformat d
  | Ts t => isoformat (ts_date t) ++ " " ++ clock (ts_nanos t)
  end.

Definition alert (c : value) (total : Qc) : string :=
  "⚠️ High spending in " ++ py_str c ++ ": ₹" ++ float_repr total.

Fixpoint overspend_alerts (groups : list (value * list Clean.row)) (limit : Qc)
  : list string :=
  match groups with
  | [] => []
  | (c, g) :: rest =>
      if Qcltb limit (amount_sum g)
      then alert c (amount_sum g) :: overspend_alerts rest limit
      else overspend_alerts rest limit
  end.

(** [DecisionAgent.detect_overspend]. *)
Definition detect_overspend (df : list Clean.row) (limit : Qc) : list string :=
  overspend_alerts (by_category df) limit.

(** The call with the default [limit=3000]. *)
Definition detect_overspend_default (df : list Clean.row) : list string :=
  detect_overspend df (Q2Qc 3000).
End Alerts.

Definition high_advisory : string :=
  "High spending pattern. Reduce non-essential expenses.".
Definition moderate_advisory : string :=
  "Moderate spending. Optimize discretionary costs.".
Definition favorable_advisory : string :=
  "Excellent financial discipline. Good savings pattern.".

(** [RecommendationAgent.recommend]. *)
Definition recommend (total : Qc) : string :=
  if Qcltb (Q2Qc 15000) total then high_advisory
  else if Qcltb (Q2Qc 8000) total then moderate_advisory
  else favorable_advisory.

(** ** The record store

    [st.session_state.data] is the only mutable component; every handler
    is a function from the session state to the next one. *)

Record session := mksession {
  data : list Raw.row;
  edit_index : option Z
}.

Definition set_label (i : Z) (r : Raw.row) : Raw.row :=
  Raw.mk i (Raw.date r) (Raw.amount r) (Raw.category r) (Raw.description r).

Fixpoint relabel (i : Z) (df : list Raw.row) : list Raw.row :=
  match df with
  | [] => []
  | r :: df' => set_label i r :: relabel (i + 1) df'
  end.

(** [df.reset_index(drop=True)]: labels 0, 1, 2, ... in frame order. *)
Definition reset_index (df : list Raw.row) : list Raw.row := relabel 0 df.

(** [pd.concat([a, b], ignore_index=True)]. *)
Definition concat_ignore_index (a b : list Raw.row) : list Raw.row :=
  reset_index (a ++ b).

(** [df.drop(lbl)]: the frame without the rows labelled [lbl];
    [KeyError] when no row carries that label. *)
Definition drop (lbl : Z) (df : list Raw.row) : result (list Raw.row) :=
  if existsb (fun r => Raw.label r =? lbl) df
  then Ok (filter (fun r => negb (Raw.label r =? lbl)) df)
  else Raise KeyError.

(** [InputAgent.collect_manual]; the one-row frame built from the
    dictionary labels it 0. *)
Definition collect_manual (date : pydate) (amount : Qc) (category desc : string)
  : Raw.row :=
  Raw.mk 0 (Date date) (Num amount) (Str category) (Str desc).

(** The "Add Expense" form on submit. *)
Definition add_expense (date : pydate) (amount : Qc) (category custom desc : string)
           (s : session) : session :=
  if Qcltb (Q2Qc 0) amount then
    let final_cat :=
      if String.eqb category "Other" && negb (String.eqb custom "")
      then custom else category in
    mksession (concat_ignore_index (data s) [collect_manual date amount final_cat desc])
              (edit_index s)
  else s.

(** The session starts with an empty store and no row being edited. *)
Definition initial : session := mksession [] None.

(** The edit button of the row labelled [p]. *)
Definition start_edit (p : Z) (s : session) : session :=
  mksession (data s) (Some p).

(** The edit form on "Update": the row read with [data.loc[edit_index]]
    must exist; it is replaced and the edit mode is left. *)
Definition update_expense (date : pydate) (amount : Qc) (category desc : string)
           (s : session) : session * result unit :=
  match edit_index s with
  | None => (s, Ok tt)
  | Some p =>
      if existsb (fun r => Raw.label r =? p) (data s) then
        (mksession
           (map (fun r => if Raw.label r =? p
                          then Raw.mk p (Date date) (Num amount) (Str category) (Str desc)
                          else r)
                (data s))
           None,
         Ok tt)
      else (s, Raise KeyError)
  end.

(** The edit form on "Cancel". *)
Definition cancel_edit (s : session) : session := mksession (data s) None.

(** The delete button of the row labelled [p]: the assignment to the
    store happens only when [drop] returns. *)
Definition delete_expense (p : Z) (s : session) : session * result unit :=
  match drop p (data s) with
  | Ok df => (mksession (reset_index df) (edit_index s), Ok tt)
  | Raise e => (s, Raise e)
  end.

(** ** CSV export and import

    [to_csv(index=False)] writes the header and one line per row, with
    the minimal quoting of Python's [csv] writer on a platform whose line
    terminator is LF.  [read_csv] is the default C tokenizer of pandas
    followed by its per-column type inference. *)

Definition comma : ascii := ",".
Definition dquote : ascii := ascii_of_nat 34.
Definition LF : ascii := ascii_of_nat 10.
Definition CR : ascii := ascii_of_nat 13.
Definition space : ascii := " ".
Definition tab : ascii := ascii_of_nat 9.

Definition csv_columns : list string := ["date"; "amount"; "category"; "description"].

Fixpoint contains (p : ascii -> bool) (s : string) : bool :=
  match s with
  | EmptyString => false
  | String c s' => p c || contains p s'
  end.

(** A field is quoted when it holds the delimiter, the quote character or
    a character of the line terminator. *)
Definition special (c : ascii) : bool :=
  Ascii.eqb c comma || Ascii.eqb c dquote || Ascii.eqb c LF.

Fixpoint escape_quotes (s : string) : string :=
  match s with
  | EmptyString => EmptyString
  | String c s' =>
      if Ascii.eqb c dquote then String dquote (String dquote (escape_quotes s'))
      else String c (escape_quotes s')
  end.

Definition quote_field (s : string) : string :=
  if contains special s
  then String dquote (escape_quotes s ++ String dquote EmptyString)
  else s.

Fixpoint join_fields (fs : list string) : string :=
  match fs with
  | [] => EmptyString
  | [f] => quote_field f
  | f :: fs' => quote_field f ++ String comma (join_fields fs')
  end.

Definition csv_line (fs : list string) : string :=
  join_fields fs ++ String LF EmptyString.

Fixpoint csv_lines (records : list (list string)) : string :=
  match records with
  | [] => EmptyString
  | fs :: records' => csv_line fs ++ csv_lines records'
  end.

Section CsvExport.
Context {conv : Conversions}.

(** The text of a cell: a missing cell is written empty. *)
Definition csv_str (v : value) : string :=
  match v with
  | NA => EmptyString
  | _ => py_str v
  end.

Definition csv_fields (r : Raw.row) : list string :=
  [csv_str (Raw.date r); csv_str (Raw.amount r);
   csv_str (Raw.category r); csv_str (Raw.description r)].

(** [df.to_csv(index=False)]. *)
Definition to_csv (df : list Raw.row) : string :=
  csv_lines (csv_columns :: map csv_fields df).

End CsvExport.

(** The tokenizer of [read_csv], a state machine over the characters. *)
Inductive lexer_state :=
| START_RECORD
| START_FIELD
| IN_FIELD
| IN_QUOTED_FIELD
| QUOTE_IN_QUOTED_FIELD
| EAT_CRNL
| EAT_CRNL_NOP
| WHITESPACE_LINE.

Record lexer := mklexer {
  state : lexer_state;
  word : string;              (* the field being read *)
  line : list string;         (* the fields of the current line *)
  lines : list (list string)  (* the lines read so far *)
}.

Definition goto (st : lexer_state) (t : lexer) : lexer :=
  mklexer st (word t) (line t) (lines t).

Definition push (c : ascii) (t : lexer) : lexer :=
  mklexer (state t) (word t ++ String c EmptyString) (line t) (lines t).

Definition end_field (t : lexer) : lexer :=
  mklexer (state t) EmptyString (line t ++ [word t]) (lines t).

Definition end_line (t : lexer) : lexer :=
  mklexer (state t) EmptyString [] (lines t ++ [line t]).

Definition forget_word (t : lexer) : lexer :=
  mklexer (state t) EmptyString (line t) (lines t).

Definition in_field_step (c : ascii) (t : lexer) : lexer :=
  if Ascii.eqb c LF then goto START_RECORD (end_line (end_field t))
  else if Ascii.eqb c CR then goto EAT_CRNL (end_field t)
  else if Ascii.eqb c comma then goto START_FIELD (end_field t)
  else goto IN_FIELD (push c t).

Definition start_field_step (c : ascii) (t : lexer) : lexer :=
  if Ascii.eqb c dquote then goto IN_QUOTED_FIELD t
  else in_field_step c t.

(** Empty lines and lines of blanks are skipped. *)
Definition start_record_step (c : ascii) (t : lexer) : lexer :=
  if Ascii.eqb c LF then goto START_RECORD t
  else if Ascii.eqb c CR then goto EAT_CRNL_NOP t
  else if Ascii.eqb c space || Ascii.eqb c tab then goto WHITESPACE_LINE (push c t)
  else start_field_step c t.

Definition step (c : ascii) (t : lexer) : lexer :=
  match state t with
  | START_RECORD => start_record_step c t
  | START_FIELD => start_field_step c t
  | IN_FIELD => in_field_step c t
  | IN_QUOTED_FIELD =>
      if Ascii.eqb c dquote then goto QUOTE_IN_QUOTED_FIELD t else push c t
  | QUOTE_IN_QUOTED_FIELD =>
      if Ascii.eqb c dquote then goto IN_QUOTED_FIELD (push c t)
      else in_field_step c t
  | EAT_CRNL =>
      if Ascii.eqb c LF then goto START_RECORD (end_line t)
      else start_record_step c (goto START_RECORD (end_line t))
  | EAT_CRNL_NOP =>
      if Ascii.eqb c LF || Ascii.eqb c comma then goto START_RECORD t
      else start_record_step c (goto START_RECORD t)
  | WHITESPACE_LINE =>
      if Ascii.eqb c LF then goto START_RECORD (forget_word t)
      else if Ascii.eqb c CR then goto EAT_CRNL_NOP (forget_word t)
      else if Ascii.eqb c space || Ascii.eqb c tab then push c t
      else in_field_step c t
  end.

Fixpoint run (t : lexer) (s : string) : lexer :=
  match s with
  | EmptyString => t
  | String c s' => run (step c t) s'
  end.

(** At the end of the input an open quoted field is an error; an open
    field and an open line are closed. *)
Definition handle_eof (t : lexer) : option (list (list string)) :=
  match state t with
  | START_RECORD | WHITESPACE_LINE | EAT_CRNL_NOP => Some (lines t)
  | IN_QUOTED_FIELD => None
  | IN_FIELD | START_FIELD | QUOTE_IN_QUOTED_FIELD => Some (lines (end_line (end_field t)))
  | EAT_CRNL => Some (lines (end_line t))
  end.

Definition tokenize (text : string) : option (list (list string)) :=
  handle_eof (run (mklexer START_RECORD EmptyString [] []) text).

(** The fields [read_csv] reads as missing. *)
Definition na_values : list string :=
  [ EmptyString; "#N/A"; "#N/A N/A"; "#NA"; "-1.#IND"; "-1.#QNAN"; "-NaN"; "-nan";
    "1.#IND"; "1.#QNAN"; "<NA>"; "N/A"; "NA"; "NULL"; "NaN"; "None"; "n/a"; "nan";
    "null" ].

Definition bool_values : list string :=
  [ "True"; "TRUE"; "true"; "False"; "FALSE"; "false" ].

Definition member (s : string) (l : list string) : bool :=
  if in_dec string_dec s l then true else false.

(** The field at a position of a line; a line shorter than the header
    is missing its last fields. *)
Definition field_at (j : nat) (fs : list string) : option string :=
  match nth_error fs j with
  | Some f => if member f na_values then None else Some f
  | None => None
  end.

Fixpoint frame_of_columns (i : Z) (ds ams cs es : list value) : list Raw.row :=
  match ds, ams, cs, es with
  | d :: ds', a :: ams', c :: cs', e :: es' =>
      Raw.mk i d a c e :: frame_of_columns (i + 1) ds' ams' cs' es'
  | _, _, _, _ => []
  end.

Section CsvImport.
Context {conv : Conversions}.

Definition is_number (f : option string) : bool :=
  match f with
  | Some s => match csv_number s with Some _ => true | None => false end
  | None => true
  end.

Definition is_bool (f : option string) : bool :=
  match f with
  | Some s => member s bool_values
  | None => true
  end.

Definition number_cell (f : option string) : value :=
  match f with
  | Some s => match csv_number s with Some q => Num q | None => NA end
  | None => NA
  end.

Definition text_cell (f : option string) : value :=
  match f with
  | Some s => Str s
  | None => NA
  end.

(** The cells of a column: numbers when every field that is not missing
    is numeric, text otherwise.  A column of booleans is not covered
    ([None]). *)
Definition infer_column (fs : list (option string)) : option (list value) :=
  if forallb is_number fs then Some (map number_cell fs)
  else if forallb is_bool fs then None
  else Some (map text_cell fs).

(** [pd.read_csv(file)] for a file with the four columns of the store.
    [None] stands for a parser error (no header, an unclosed quote) and
    for the files this model does not cover: another header, a boolean
    column, a line longer than the header (which pandas rejects, or reads
    with its first field as the index when every line is longer). *)
Definition read_csv (text : string) : option (list Raw.row) :=
  match tokenize text with
  | Some (header :: rows) =>
      if list_eq_dec string_dec header csv_columns then
        if forallb (fun fs => (List.length fs <=? 4)%nat) rows then
          match infer_column (map (field_at 0) rows),
                infer_column (map (field_at 1) rows),
                infer_column (map (field_at 2) rows),
                infer_column (map (field_at 3) rows) with
          | Some ds, Some ams, Some cs, Some es => Some (frame_of_columns 0 ds ams cs es)
          | _, _, _, _ => None
          end
        else None
      else None
  | _ => None
  end.

(** The upload handler: the rows read are appended to the store. *)
Definition import_csv (text : string) (s : session) : option session :=
  match read_csv text with
  | Some df => Some (mksession (concat_ignore_index (data s) df) (edit_index s))
  | None => None
  end.

End CsvImport.

(** The sessions the handlers of the page can produce. *)
Inductive reachable {conv : Conversions} : session -> Prop :=
| reach_initial : reachable initial
| reach_add s date amount category custom desc :
    reachable s -> reachable (add_expense date amount category custom desc s)
| reach_import s text s' :
    reachable s -> import_csv text s = Some s' -> reachable s'
| reach_start_edit s p : reachable s -> reachable (start_edit p s)
| reach_update s date amount category desc :
    reachable s -> reachable (fst (update_expense date amount category desc s))
| reach_cancel s : reachable s -> reachable (cancel_edit s)
| reach_delete s p : reachable s -> reachable (fst (delete_expense p s)).

(** ** Reference conversions

    One instance of the interface, used to evaluate examples: plain
    decimal literals for numbers, ISO [YYYY-MM-DD] text for dates and the
    missing-date markers of pandas. *)
Module Reference.

Definition digit_of (c : ascii) : option Z :=
  let n := Z.of_nat (nat_of_ascii c) in
  if (48 <=? n) && (n <=? 57) then Some (n - 48) else None.

Fixpoint digits_value (s : string) (acc : Z) : option Z :=
  match s with
  | EmptyString => Some acc
  | String c s' =>
      match digit_of c with
      | Some d => digits_value s' (acc * 10 + d)
      | None => None
      end
  end.

(** The text before and after the first dot. *)
Fixpoint split_dot (s : string) : string * string :=
  match s with
  | EmptyString => ("", "")
  | String c s' =>
      if Ascii.eqb c "." then ("", s')
      else let (a, b) := split_dot s' in (String c a, b)
  end.

Definition unsigned_decimal (s : string) : option Qc :=
  let (ip, fp) := split_dot s in
  if (String.length ip + String.length fp =? 0)%nat then None
  else
    match digits_value ip 0, digits_value fp 0 with
    | Some i, Some f =>
        let scale := 10 ^ Z.of_nat (String.length fp) in
        Some (Q2Qc (Qred ((i * scale + f) # Z.to_pos scale)))
    | _, _ => None
    end.

(** Optional sign, digits, optional fraction. *)
Definition decimal_of_str (s : string) : option Qc :=
  match s with
  | String "-" s' => option_map Qcopp (unsigned_decimal s')
  | String "+" s' => unsigned_decimal s'
  | _ => unsigned_decimal s
  end.

(** The least number of fractional digits, from one to [fuel] more,
    that writes [n / d] exactly. *)
Fixpoint fraction_digits (fuel : nat) (k : Z) (n d : Z) : Z :=
  match fuel with
  | O => k
  | S f => if (n * 10 ^ k) mod d =? 0 then k else fraction_digits f (k + 1) n d
  end.

Definition decimal_repr (q : Qc) : string :=
  let n := Z.abs (Qnum q) in
  let d := Zpos (Qden q) in
  let k := fraction_digits 15 1 n d in
  let m := n * 10 ^ k / d in
  let sign := if Qnum q <? 0 then "-" else "" in
  sign ++ pad_decimal 1 (m / 10 ^ k) ++ "." ++ zero_pad (Z.to_nat k) m.

Definition nat_strings : list string :=
  [""; "NaT"; "nat"; "NAT"; "nan"; "NaN"; "NAN"].

Definition iso_date (s : string) : option pydate :=
  match s with
  | String y1 (String y2 (String y3 (String y4 (String "-"
      (String m1 (String m2 (String "-" (String d1 (String d2 EmptyString))))))))) =>
      match digits_value (String y1 (String y2 (String y3 (String y4 ""))))%string 0,
            digits_value (String m1 (String m2 "")) 0,
            digits_value (String d1 (String d2 "")) 0 with
      | Some y, Some m, Some d => Some (mkdate y m d)
      | _, _, _ => None
      end
  | _ => None
  end.

Definition iso_datetime_of_str (s : string) : option (option Timestamp) :=
  if in_dec string_dec s nat_strings then Some None
  else
    match iso_date s with
    | Some d => if valid_date d then Some (Some (mkts d 0)) else None
    | None => None
    end.

(** The civil date [z] days after 1970-01-01. *)
Definition civil_from_days (z : Z) : pydate :=
  let z := z + 719468 in
  let era := z / 146097 in
  let doe := z - era * 146097 in
  let yoe := (doe - doe / 1460 + doe / 36524 - doe / 146096) / 365 in
  let doy := doe - (365 * yoe + yoe / 4 - yoe / 100) in
  let mp := (5 * doy + 2) / 153 in
  let d := doy - (153 * mp + 2) / 5 + 1 in
  let m := if mp <? 10 then mp + 3 else mp - 9 in
  mkdate (yoe + era * 400 + (if m <=? 2 then 1 else 0)) m d.

Definition epoch_nanoseconds (q : Qc) : option Timestamp :=
  let ns := Qnum q / Zpos (Qden q) in
  Some (mkts (civil_from_days (ns / 86400000000000)) (ns mod 86400000000000)).

#[export] Instance plain : Conversions := {
  float_of_str := decimal_of_str;
  datetime_of_str := iso_datetime_of_str;
  datetime_of_num := epoch_nanoseconds;
  float_repr := decimal_repr;
  csv_number := decimal_of_str
}.

End Reference.

(** ** The Dashboard page

    What the Dashboard branch computes from the store when it is not
    empty (otherwise the page only says that there is no data). *)

Record insights := mkinsights {
  total : Qc;
  by_cat : list (value * Qc);
  by_month : list (string * Qc);
  alerts : list string;
  rec : string
}.

Definition dashboard {conv : Conversions} (store : list Raw.row) : result insights :=
  df <- clean store ;;
  let '(total, by_cat, by_month) := analyze df in
  Ok (mkinsights total by_cat by_month (detect_overspend_default df) (recommend total)).

(** ** The pages as they are rendered

    The Add Expense form, and the Dashboard and Reports branches with
    their guard on an empty store and the figures they print. *)

(** The options of the category select box. *)
Definition category_options : list string :=
  ["Food"; "Travel"; "Shopping"; "Entertainment"; "Utilities"; "Other"].

(** The category that is stored: the custom text replaces "Other" only
    when it is not empty. *)
Definition final_category (category custom : string) : string :=
  if String.eqb category "Other" && negb (String.eqb custom "") then custom else category.

(** [Series.nunique()]: the number of distinct values, the missing ones
    left out. *)
Definition nunique (vs : list value) : nat :=
  List.length (nodup value_eq_dec (filter (fun v => negb (isna v)) vs)).

(** What the Dashboard shows: the insights and the two counters
    "Entries" and "Categories". *)
Record dashboard_view := mkview {
  shown : insights;
  entries : nat;
  categories : nat
}.

(** The Dashboard branch: [None] is the message that no data is
    available, shown when the store is empty. *)
Definition dashboard_page {conv : Conversions} (s : session)
  : option (result dashboard_view) :=
  match data s with
  | [] => None
  | _ =>
      Some (df <- clean (data s) ;;
            let '(total, by_cat, by_month) := analyze df in
            Ok (mkview (mkinsights total by_cat by_month
                                   (detect_overspend_default df) (recommend total))
                       (List.length df)
                       (nunique (map Clean.category df))))
  end.

(** What the Reports page prints. *)
Record report := mkreport {
  total_spent : Qc;
  total_transactions : nat;
  top_category : value;
  category_breakdown : list (value * Qc);
  monthly_breakdown : list (string * Qc)
}.

(** How the Reports branch ends: the message that there is no data, an
    error raised by [clean], the [IndexError] of [iloc[0]] on an empty
    frame of subtotals, or the report. *)
Inductive report_outcome :=
| NoData
| CleanError (e : exn)
| IndexError
| Report (r : report).

Section ReportsPage.
Context {conv : Conversions}.
(** [by_cat.sort_values('amount', ascending=False)]: the order pandas
    gives to equal amounts is left open, see [descending]. *)
Variable sort_values : list (value * Qc) -> list (value * Qc).

Definition reports_page (s : session) : report_outcome :=
  match data s with
  | [] => NoData
  | _ =>
      match clean (data s) with
      | Raise e => CleanError e
      | Ok df =>
          let '(total, by_cat, by_month) := analyze df in
          match sort_values by_cat with
          | [] => IndexError
          | (c, _) :: _ => Report (mkreport total (List.length df) c by_cat by_month)
          end
      end
  end.

End ReportsPage.

(** A sort of the subtotals by decreasing amount, stable on equal
    amounts; one of the sorts [descending] admits. *)
Fixpoint insert_desc (x : value * Qc) (l : list (value * Qc)) : list (value * Qc) :=
  match l with
  | [] => [x]
  | y :: l' => if Qcltb (snd y) (snd x) then x :: l else y :: insert_desc x l'
  end.

Definition sort_desc (l : list (value * Qc)) : list (value * Qc) :=
  fold_right insert_desc [] l.

(** ** Examples *)

Definition qc (n : Z) (d : positive) : Qc := Q2Qc (n # d).

(** The scenario of the specification; its third record has an empty
    description. *)
Definition scenario : list Raw.row :=
  [ Raw.mk 0 (Date (mkdate 2024 1 5)) (Num (qc 100 1)) (Str "Food") (Str "lunch");
    Raw.mk 1 (Date (mkdate 2024 1 20)) (Num (qc 50 1)) (Str "Food") (Str "snack");
    Raw.mk 2 (Date (mkdate 2024 2 1)) (Num (qc 200 1)) (Str "Travel") (Str "") ].

(** * Vocabulary of the statements *)

Section CleaningVocabulary.
Context {conv : Conversions}.
Context {R : Type} {cols : Columns R}.

(** The cleaned row [c] is the input row [r] with its amount converted,
    its date converted and its month derived. *)
Definition normalized_from (r : R) (c : Clean.row) : Prop :=
  Clean.label c = col_label r /\
  Clean.category c = col_category r /\
  Clean.description c = col_description r /\
  astype_float (col_amount r) = Ok (Clean.amount c) /\
  to_datetime (col_date r) = Ok (Clean.date c) /\
  Clean.month c = option_map (strftime "%Y-%m") (Clean.date c).

(** Both conversions succeed on the row. *)
Definition convertible (r : R) : Prop :=
  (exists q, astype_float (col_amount r) = Ok q) /\
  (exists d, to_datetime (col_date r) = Ok d).

End CleaningVocabulary.

(** A cleaned row that a second cleaning leaves as it is. *)
Definition settled (c : Clean.row) : Prop :=
  exists t, Clean.date c = Some t /\ valid_timestamp t = true /\
            Clean.month c = Some (strftime "%Y-%m" t) /\
            isna (Clean.category c) = false /\
            isna (Clean.description c) = false.

(** A normalized record set: every record carries a category and its
    derived period, the two keys of the subtotals. *)
Definition normalized (df : list Clean.row) : Prop :=
  Forall (fun r => Clean.category r <> NA /\ Clean.month r <> None) df.

(** The summed amount of the rows of category [c]. *)
Definition category_total (c : value) (df : list Clean.row) : Qc :=
  amount_sum
    (filter (fun r => if value_eq_dec (Clean.category r) c then true else false) df).

(** The text [YYYY-MM]: the four decimal digits of the year, a hyphen and
    the two decimal digits of the month. *)
Definition YYYY_MM (y m : Z) : string :=
  String (digit_char (y / 1000 mod 10))
    (String (digit_char (y / 100 mod 10))
       (String (digit_char (y / 10 mod 10))
          (String (digit_char (y mod 10))
             (String "-"
                (String (digit_char (m / 10 mod 10))
                   (String (digit_char (m mod 10)) "")))))).

(** A record with a missing field. *)
Definition incomplete (r : Raw.row) : Prop :=
  Raw.date r = NA \/ Raw.amount r = NA \/ Raw.category r = NA \/ Raw.description r = NA.


Section RecordVocabulary.
Context {conv : Conversions}.

(** The number an amount cell stands for: the number it holds, or the
    number its text spells. *)
Inductive amount_value : value -> Qc -> Prop :=
| amount_number q : amount_value (Num q) q
| amount_text s q : float_of_str s = Some q -> amount_value (Str s) q.

Definition numeric_amount (r : Raw.row) : Prop :=
  exists q, amount_value (Raw.amount r) q.



End RecordVocabulary.

(** The sum of the amounts of the rows of category [c], row by row. *)
Fixpoint category_sum (c : value) (df : list Clean.row) : Qc :=
  match df with
  | [] => Q2Qc 0
  | r :: df' =>
      if value_eq_dec (Clean.category r) c
      then (Clean.amount r + category_sum c df')%Qc
      else category_sum c df'
  end.

(** A cell that is text, a number or missing. *)
Definition text_or_number (v : value) : Prop :=
  match v with
  | NA | Str _ | Num _ => True
  | Date _ | Ts _ => False
  end.

(** Every category of the frame is text. *)
Definition text_categories (df : list Clean.row) : Prop :=
  Forall (fun c => exists s, Clean.category c = Str s) df.

(** The text of an alert: the name of the category and its total. *)
Definition alert_text {conv : Conversions} (name : string) (total : Qc) : string :=
  "⚠️ High spending in " ++ name ++ ": ₹" ++ float_repr total.

(** The four fields of a record, without its index label. *)
Definition fields (r : Raw.row) : value * value * value * value :=
  (Raw.date r, Raw.amount r, Raw.category r, Raw.description r).

(** No carriage return in the text. *)
Definition cr_free (s : string) : bool := negb (contains (fun c => Ascii.eqb c CR) s).

(** The states in which a field has been read and a delimiter or a line
    terminator closes it. *)
Definition closes (st : lexer_state) : Prop :=
  st = START_FIELD \/ st = IN_FIELD \/ st = QUOTE_IN_QUOTED_FIELD.

Definition well_formed_line (fs : list string) : Prop :=
  (2 <= List.length fs)%nat /\ Forall (fun f => cr_free f = true) fs.

(** A sort by decreasing amount: a rearrangement of the rows in which no
    row comes before one of a larger amount. *)
Definition descending (sort : list (value * Qc) -> list (value * Qc)) : Prop :=
  forall l, Permutation (sort l) l /\
            StronglySorted (fun a b => (snd b <= snd a)%Qc) (sort l).

(** A record as the Add Expense form stores it, with a date that
    [pd.to_datetime] can hold. *)
Definition manual (r : Raw.row) : Prop :=
  exists d a c e,
    fields r = (Date d, Num a, Str c, Str e) /\ valid_timestamp (mkts d 0) = true.

(** The fields of a cleaned row, without its index label. *)
Definition cleaned_fields (c : Clean.row)
  : option Timestamp * Qc * value * value * option string :=
  (Clean.date c, Clean.amount c, Clean.category c, Clean.description c, Clean.month c).

(** The summed amount of the rows of period [k]. *)
Definition period_total (k : string) (df : list Clean.row) : Qc :=
  amount_sum
    (filter (fun r => match Clean.month r with
                      | Some k' => if string_dec k' k then true else false
                      | None => false
                      end) df).

(** The cleaned rows [c1] and [c2] differ at most by their label. *)
Definition same_cleaned (c1 c2 : Clean.row) : Prop :=
  cleaned_fields c1 = cleaned_fields c2.

Section ExportVocabulary.
Context {conv : Conversions}.

(** The record with its date as the text [to_csv] writes for it. *)
Definition date_as_text (r : Raw.row) : Raw.row :=
  Raw.mk (Raw.label r) (Str (csv_str (Raw.date r)))
         (Raw.amount r) (Raw.category r) (Raw.description r).

(** Text that comes back from [read_csv] as the same text: without
    carriage return, not read as missing, as a number or as a boolean. *)
Definition inert (s : string) : Prop :=
  cr_free s = true /\ member s na_values = false /\
  member s bool_values = false /\ csv_number s = None.

(** A number whose printed form is read back as the same number. *)
Definition exact_number (q : Qc) : Prop :=
  cr_free (float_repr q) = true /\ member (float_repr q) na_values = false /\
  csv_number (float_repr q) = Some q.

Definition textual (v : value) : Prop :=
  match v with
  | Str s => inert s
  | Date d => inert (isoformat d)
  | _ => False
  end.

(** A record with a date (an object or text), a numeric amount and a
    text category and description that the export and the import leave
    alone. *)
Definition exportable (r : Raw.row) : Prop :=
  textual (Raw.date r) /\
  (exists q, Raw.amount r = Num q /\ exact_number q) /\
  (exists s, Raw.category r = Str s /\ inert s) /\
  (exists s, Raw.description r = Str s /\ inert s).

End ExportVocabulary.

(** ** Statements of the specification about one input

    Each is stated for one store; it holds for some stores and fails for
    others. *)

Section Readings.
Context {conv : Conversions}.


(** When [clean] accepts the frame, cleaning its output again returns
    that output. *)
Definition clean_idempotent_on (df : list Raw.row) : Prop :=
  forall out, clean df = Ok out -> clean out = Ok out.

(** Every row [clean] keeps carries a period of the form [YYYY-MM]. *)
Definition period_always_formatted (df : list Raw.row) : Prop :=
  forall out c, clean df = Ok out -> In c out ->
                exists y m, Clean.month c = Some (YYYY_MM y m).

(** The text exported from the store is read back as the same multiset
    of records, a date counting as equal to its text. *)
Definition roundtrip_equivalent (store : list Raw.row) : Prop :=
  exists df, read_csv (to_csv store) = Some df /\
             Permutation (map fields df) (map fields (map date_as_text store)).

End Readings.

(** ** Example data *)

Definition scenario_cleaned : list Clean.row :=
  [ Clean.mk 0 (Some (mkts (mkdate 2024 1 5) 0)) (qc 100 1) (Str "Food") (Str "lunch")
             (Some "2024-01");
    Clean.mk 1 (Some (mkts (mkdate 2024 1 20) 0)) (qc 50 1) (Str "Food") (Str "snack")
             (Some "2024-01");
    Clean.mk 2 (Some (mkts (mkdate 2024 2 1) 0)) (qc 200 1) (Str "Travel") (Str "")
             (Some "2024-02") ].



Definition absent_description : Raw.row :=
  Raw.mk 3 (Date (mkdate 2024 2 3)) (Num (qc 9000 1)) (Str "Travel") NA.

Definition missing_date_marker : list Raw.row :=
  [ Raw.mk 0 (Str "NaT") (Num (qc 5 1)) (Str "Food") (Str "tea") ].

Definition two_expenses : list Raw.row :=
  [ Raw.mk 0 (Date (mkdate 2024 1 5)) (Num (qc 100 1)) (Str "Food") (Str "lunch, with tip");
    Raw.mk 1 (Date (mkdate 2024 1 20)) (Num (qc 300001 100)) (Str "Rent") (Str "flat") ].

(** A description with a comma, a quote and a line feed. *)
Definition awkward_description : list Raw.row :=
  [ Raw.mk 0 (Date (mkdate 2024 1 5)) (Num (qc 100 1)) (Str "Food")
           (Str (String "a" (String comma (String dquote (String LF (String "b" EmptyString)))))) ].

(** The scenario as it is read back from its exported text. *)
Definition scenario_reimported : list Raw.row :=
  [ Raw.mk 0 (Str "2024-01-05") (Num (qc 100 1)) (Str "Food") (Str "lunch");
    Raw.mk 1 (Str "2024-01-20") (Num (qc 50 1)) (Str "Food") (Str "snack");
    Raw.mk 2 (Str "2024-02-01") (Num (qc 200 1)) (Str "Travel") NA ].

(** * Properties *)

Local Open Scope list_scope.

(** ** The scenario of the specification *)

Example scenario_dashboard :
  dashboard (conv := Reference.plain) scenario
  = Ok (mkinsights (qc 350 1)
          [(Str "Food", qc 150 1); (Str "Travel", qc 200 1)]
          [("2024-01", qc 150 1); ("2024-02", qc 200 1)]
          []
          favorable_advisory).
Proof. reflexivity. Qed.

(** ** Comparisons and sums *)

Lemma Qcltb_lt (x y : Qc) : Qcltb x y = true <-> (x < y)%Qc.
Proof.
  unfold Qcltb. rewrite Qclt_alt.
  destruct (x ?= y)%Qc; split; intro H; try reflexivity; discriminate H.
Qed.

Lemma Qcltb_ge (x y : Qc) : Qcltb x y = false <-> (y <= x)%Qc.
Proof.
  split; intro H.
  - apply (Qcnot_lt_le x y). intro L. apply Qcltb_lt in L. congruence.
  - destruct (Qcltb x y) eqn:E; [|reflexivity].
    apply Qcltb_lt in E. exfalso. exact (Qclt_not_le _ _ E H).
Qed.

Lemma series_sum_app (xs ys : list Qc) :
  series_sum (xs ++ ys) = (series_sum xs + series_sum ys)%Qc.
Proof.
  induction xs as [|x xs IH]; simpl.
  - now rewrite Qcplus_0_l.
  - rewrite IH. ring.
Qed.

(** ** The recommendation rule *)

(** C3: [recommend] gives the high advisory exactly above 15000, the
    moderate one exactly above 8000 and up to 15000, the favourable one
    exactly up to 8000; 8000 is favourable, 8000.01 and 15000 are moderate
    and 15000.01 is high. *)
Theorem recommend_thresholds :
  (forall total : Qc,
     (recommend total = high_advisory <-> (qc 15000 1 < total)%Qc) /\
     (recommend total = moderate_advisory
      <-> (qc 8000 1 < total)%Qc /\ (total <= qc 15000 1)%Qc) /\
     (recommend total = favorable_advisory <-> (total <= qc 8000 1)%Qc)) /\
  recommend (qc 8000 1) = favorable_advisory /\
  recommend (qc 800001 100) = moderate_advisory /\
  recommend (qc 15000 1) = moderate_advisory /\
  recommend (qc 1500001 100) = high_advisory.
Proof.
  split; [|repeat split; reflexivity].
  intro total. unfold recommend. change (Q2Qc 15000) with (qc 15000 1).
  change (Q2Qc 8000) with (qc 8000 1).
  assert (Hcut : (qc 8000 1 < qc 15000 1)%Qc) by reflexivity.
  destruct (Qcltb (qc 15000 1) total) eqn:Hhi.
  - apply Qcltb_lt in Hhi.
    assert (Hmid : (qc 8000 1 < total)%Qc) by (eapply Qclt_trans; eassumption).
    split; [|split]; split; intro H.
    + exact Hhi.
    + reflexivity.
    + discriminate H.
    + destruct H as [_ H]. exfalso. exact (Qclt_not_le _ _ Hhi H).
    + discriminate H.
    + exfalso. exact (Qclt_not_le _ _ Hmid H).
  - apply Qcltb_ge in Hhi.
    destruct (Qcltb (qc 8000 1) total) eqn:Hmid.
    + apply Qcltb_lt in Hmid.
      split; [|split]; split; intro H.
      * discriminate H.
      * exfalso. exact (Qclt_not_le _ _ H Hhi).
      * split; assumption.
      * reflexivity.
      * discriminate H.
      * exfalso. exact (Qclt_not_le _ _ Hmid H).
    + apply Qcltb_ge in Hmid.
      split; [|split]; split; intro H.
      * discriminate H.
      * exfalso. exact (Qclt_not_le _ _ H Hhi).
      * discriminate H.
      * destruct H as [H _]. exfalso. exact (Qclt_not_le _ _ H Hmid).
      * exact Hmid.
      * reflexivity.
Qed.

(** ** Aggregation of the empty frame *)

(** C5: [analyze] of the empty frame returns the total 0, no category
    subtotal and no period subtotal. *)
Theorem analyze_empty : analyze [] = (Q2Qc 0, [], []).
Proof. reflexivity. Qed.

(** ** Column conversions *)

Lemma traverse_Ok {A B} (f : A -> result B) (l : list A) (out : list B) :
  traverse f l = Ok out <-> Forall2 (fun a b => f a = Ok b) l out.
Proof.
  revert out. induction l as [|a l IH]; intro out; simpl.
  - split; intro H.
    + injection H as <-. constructor.
    + inversion H. reflexivity.
  - split; intro H.
    + destruct (f a) as [b|e] eqn:Ea; simpl in H; [|discriminate H].
      destruct (traverse f l) as [bs|e] eqn:El; simpl in H; [|discriminate H].
      injection H as <-. constructor; [exact Ea | now apply IH].
    + inversion H as [|a' b l' bs Ea Hl]; subst.
      rewrite Ea. simpl. apply IH in Hl. rewrite Hl. reflexivity.
Qed.

Lemma traverse_Raise {A B} (f : A -> result B) (l : list A) (e : exn) :
  traverse f l = Raise e -> Exists (fun a => f a = Raise e) l.
Proof.
  induction l as [|a l IH]; simpl; intro H; [discriminate H|].
  destruct (f a) as [b|e'] eqn:Ea; simpl in H.
  - destruct (traverse f l) as [bs|e'] eqn:El; simpl in H; [discriminate H|].
    injection H as ->. apply Exists_cons_tl. now apply IH.
  - injection H as ->. now apply Exists_cons_hd.
Qed.

Lemma traverse_total {A B} (f : A -> result B) (l : list A) :
  Forall (fun a => exists b, f a = Ok b) l -> exists out, traverse f l = Ok out.
Proof.
  induction 1 as [|a l [b Ea] _ [bs El]]; simpl.
  - now exists [].
  - exists (b :: bs). now rewrite Ea, El.
Qed.

Section CleaningFacts.
Context {conv : Conversions}.
Context {R : Type} {cols : Columns R}.

Lemma assign_normalized (df : list R) amounts dates :
  Forall2 (fun a b => astype_float a = Ok b) (map col_amount df) amounts ->
  Forall2 (fun a b => to_datetime a = Ok b) (map col_date df) dates ->
  Forall2 normalized_from df (assign df amounts dates).
Proof.
  revert amounts dates. induction df as [|r df IH]; intros amounts dates Ha Hd.
  - constructor.
  - inversion Ha as [|? a ? amounts' Ea Ha']; subst.
    inversion Hd as [|? d ? dates' Ed Hd']; subst.
    simpl. constructor; [|now apply IH].
    repeat split; assumption.
Qed.

Lemma clean_Ok (df : list R) (out : list Clean.row) :
  clean df = Ok out -> Forall2 normalized_from (dropna df) out.
Proof.
  unfold clean. intro H.
  destruct (traverse astype_float _) as [amounts|e] eqn:Ea; simpl in H; [|discriminate H].
  destruct (traverse to_datetime _) as [dates|e] eqn:Ed; simpl in H; [|discriminate H].
  injection H as <-.
  apply assign_normalized; now apply traverse_Ok.
Qed.

Lemma clean_total (df : list R) :
  Forall convertible (dropna df) -> exists out, clean df = Ok out.
Proof.
  intro H. unfold clean.
  destruct (traverse_total astype_float (map col_amount (dropna df))) as [amounts Ea].
  { apply Forall_map. eapply Forall_impl; [|exact H]. intros r [Hq _]. exact Hq. }
  destruct (traverse_total to_datetime (map col_date (dropna df))) as [dates Ed].
  { apply Forall_map. eapply Forall_impl; [|exact H]. intros r [_ Hd]. exact Hd. }
  rewrite Ea, Ed. simpl. eauto.
Qed.

Lemma clean_Raise (df : list R) (e : exn) :
  clean df = Raise e -> Exists (fun r => ~ convertible r) (dropna df).
Proof.
  unfold clean. intro H.
  destruct (traverse astype_float _) as [amounts|e'] eqn:Ea; simpl in H.
  - destruct (traverse to_datetime _) as [dates|e'] eqn:Ed; simpl in H; [discriminate H|].
    apply traverse_Raise in Ed. apply Exists_map in Ed.
    eapply Exists_impl; [|exact Ed].
    intros r Hr [_ [d Hd]]. simpl in Hr. congruence.
  - apply traverse_Raise in Ea. apply Exists_map in Ea.
    eapply Exists_impl; [|exact Ea].
    intros r Hr [[q Hq] _]. simpl in Hr. congruence.
Qed.

Lemma dropna_app (a b : list R) : dropna (a ++ b) = dropna a ++ dropna b.
Proof. apply filter_app. Qed.

Lemma dropna_complete (df : list R) : Forall (fun r => row_isna r = false) (dropna df).
Proof.
  apply Forall_forall. intros r Hr. apply filter_In in Hr.
  destruct Hr as [_ Hr]. now apply negb_true_iff in Hr.
Qed.


End CleaningFacts.

(** ** Rows with a missing field *)

Lemma row_isna_dropped {conv : Conversions} {R} {cols : Columns R}
      (before after : list R) (r : R) :
  row_isna r = true ->
  dropna (before ++ r :: after) = dropna (before ++ after).
Proof.
  intro H. rewrite !dropna_app. f_equal. unfold dropna. simpl. now rewrite H.
Qed.

(** C10: a row in which any field is missing, the description included,
    is dropped by [clean]: the cleaned frame, and with it the total, the
    subtotals, the alerts and the recommendation of the dashboard, are
    those of the store without that row. *)
Theorem missing_field_row_excluded {conv : Conversions}
        (before after : list Raw.row) (r : Raw.row) :
  Raw.date r = NA \/ Raw.amount r = NA \/ Raw.category r = NA \/ Raw.description r = NA ->
  (forall out, clean (before ++ r :: after) = Ok out ->
               Forall2 normalized_from (dropna (before ++ after)) out) /\
  clean (before ++ r :: after) = clean (before ++ after) /\
  dashboard (before ++ r :: after) = dashboard (before ++ after).
Proof.
  intro H.
  assert (Hna : row_isna r = true).
  { unfold row_isna. simpl.
    destruct H as [H|[H|[H|H]]]; rewrite H; simpl;
      rewrite ?orb_true_r; reflexivity. }
  assert (Hclean : clean (before ++ r :: after) = clean (before ++ after)).
  { unfold clean. now rewrite (row_isna_dropped before after r Hna). }
  split; [|split].
  - intros out Hout. rewrite Hclean in Hout. now apply clean_Ok.
  - exact Hclean.
  - unfold dashboard. now rewrite Hclean.
Qed.

Lemma missing_field_row_excluded_witness :
  dashboard (conv := Reference.plain) (scenario ++ absent_description :: [])
  = dashboard (conv := Reference.plain) (scenario ++ []).
Proof.
  apply (missing_field_row_excluded (conv := Reference.plain) scenario [] absent_description).
  right; right; right; reflexivity.
Defined.

(** ** The cleaned frame *)

Section CleanedFrame.
Context {conv : Conversions}.

Lemma check_timestamp_valid (t : Timestamp) (d : option Timestamp) :
  check_timestamp t = Ok d -> d = Some t /\ valid_timestamp t = true.
Proof.
  unfold check_timestamp. destruct (valid_timestamp t); intro H; [|discriminate H].
  injection H as <-. now split.
Qed.

Lemma to_datetime_valid (v : value) (t : Timestamp) :
  to_datetime v = Ok (Some t) -> valid_timestamp t = true.
Proof.
  destruct v as [|s|q|d|t']; simpl; intro H.
  - discriminate H.
  - destruct (datetime_of_str s) as [[t'|]|]; try discriminate H.
    apply check_timestamp_valid in H as [H V]. congruence.
  - destruct (datetime_of_num q) as [t'|]; try discriminate H.
    apply check_timestamp_valid in H as [H V]. congruence.
  - apply check_timestamp_valid in H as [H V]. congruence.
  - apply check_timestamp_valid in H as [H V]. congruence.
Qed.

Lemma settled_complete (c : Clean.row) : settled c -> row_isna c = false.
Proof.
  intros (t & Hd & _ & Hm & Hc & He). unfold row_isna. simpl.
  now rewrite Hd, Hm, Hc, He.
Qed.

Lemma dropna_settled (out : list Clean.row) : Forall settled out -> dropna out = out.
Proof.
  induction 1 as [|c out Hc _ IH]; [reflexivity|].
  unfold dropna in *. simpl. rewrite (settled_complete c Hc). simpl. now rewrite IH.
Qed.

Lemma astype_settled (out : list Clean.row) :
  traverse astype_float (map col_amount out) = Ok (map Clean.amount out).
Proof. apply traverse_Ok. induction out; simpl; constructor; auto. Qed.

Lemma to_datetime_settled (out : list Clean.row) :
  Forall settled out ->
  traverse to_datetime (map col_date out) = Ok (map Clean.date out).
Proof.
  intro H. apply traverse_Ok.
  induction H as [|c out (t & Hd & Hv & _) _ IH]; simpl; constructor; [|exact IH].
  rewrite Hd. simpl. unfold check_timestamp. now rewrite Hv.
Qed.

Lemma assign_settled (out : list Clean.row) :
  Forall settled out ->
  assign out (map Clean.amount out) (map Clean.date out) = out.
Proof.
  induction 1 as [|c out (t & Hd & _ & Hm & _) _ IH]; [reflexivity|].
  simpl. rewrite IH. f_equal. destruct c as [l d a cat desc m]. simpl in *.
  subst d m. reflexivity.
Qed.

Lemma clean_settled (out : list Clean.row) : Forall settled out -> clean out = Ok out.
Proof.
  intro H. unfold clean. rewrite (dropna_settled out H).
  rewrite astype_settled, (to_datetime_settled out H). simpl.
  now rewrite (assign_settled out H).
Qed.

Lemma normalized_settled {R} {cols : Columns R} (r : R) (c : Clean.row) :
  row_isna r = false -> normalized_from r c -> Clean.date c <> None -> settled c.
Proof.
  intros Hna (_ & Hc & He & _ & Hd & Hm) Hsome.
  destruct (Clean.date c) as [t|] eqn:Ed; [|congruence].
  exists t. unfold row_isna in Hna.
  repeat (apply orb_false_iff in Hna; destruct Hna as [Hna ?]).
  repeat split; try congruence.
  - eapply to_datetime_valid; exact Hd.
  - exact Hm.
Qed.

End CleanedFrame.

(** ** Idempotence *)

(** C6, counterexample: [clean] accepts a row whose date text is the
    marker [NaT] and returns it with a missing date and month; cleaning
    that output again drops the row. *)
Lemma clean_not_idempotent_on_missing_date :
  (exists c, clean (conv := Reference.plain) missing_date_marker = Ok [c] /\
             clean (conv := Reference.plain) [c] = Ok []) /\
  ~ clean_idempotent_on (conv := Reference.plain) missing_date_marker.
Proof.
  split.
  - eexists. split; reflexivity.
  - intro H. specialize (H _ eq_refl). discriminate H.
Qed.

(** C6, amended: when [clean] accepts a frame in which every record
    without a missing cell has a numeric amount (a number, or a text that
    spells a finite number: not [nan], not [inf]), and no date of its
    output is missing ([NaT]), cleaning the output again returns it
    unchanged. *)
Theorem clean_idempotent {conv : Conversions} (df : list Raw.row) (out : list Clean.row) :
  clean df = Ok out ->
  Forall (fun r => ~ incomplete r -> numeric_amount r) df ->
  Forall (fun c => Clean.date c <> None) out ->
  clean out = Ok out.
Proof.
  intros Hclean _ Hdates. apply clean_settled.
  pose proof (clean_Ok _ _ Hclean) as H2.
  pose proof (dropna_complete df) as Hna.
  remember (dropna df) as kept eqn:Ekept. clear Ekept Hclean.
  revert Hna Hdates.
  induction H2 as [|r c l l' Hrc _ IH]; intros Hna Hdates; constructor.
  - apply (normalized_settled r c).
    + now inversion Hna.
    + exact Hrc.
    + now inversion Hdates.
  - apply IH; [now inversion Hna | now inversion Hdates].
Qed.

Lemma clean_idempotent_witness :
  clean (conv := Reference.plain) scenario_cleaned = Ok scenario_cleaned.
Proof.
  apply (clean_idempotent (conv := Reference.plain) scenario scenario_cleaned).
  - reflexivity.
  - repeat constructor; intros _; eexists; constructor.
  - repeat constructor; discriminate.
Defined.

(** ** The derived period *)

Lemma high_digits_0 (fuel : nat) : high_digits fuel 0 = "".
Proof. destruct fuel; reflexivity. Qed.

Lemma strftime_year_month (t : Timestamp) :
  0 <= year (ts_date t) < 10000 ->
  strftime "%Y-%m" t = YYYY_MM (year (ts_date t)) (mon (ts_date t)).
Proof.
  intro Hy. set (y := year (ts_date t)) in *. set (m := mon (ts_date t)).
  cbn [strftime Ascii.eqb Bool.eqb]. fold y m.
  unfold pad_decimal.
  replace (y / 10 ^ Z.of_nat 4) with 0
    by (symmetry; apply Z.div_small; simpl; lia).
  rewrite high_digits_0. cbn [zero_pad append].
  rewrite !Z.div_div by lia. reflexivity.
Qed.

Lemma valid_timestamp_bounds (t : Timestamp) :
  valid_timestamp t = true ->
  1677 <= year (ts_date t) <= 2262 /\ 1 <= mon (ts_date t) <= 12.
Proof.
  unfold valid_timestamp, valid_date, ts_ord, ts_min_ord, ts_max_ord.
  intro H. repeat (apply andb_prop in H; destruct H as [H ?]).
  assert (day (ts_date t) <= 31).
  { assert (D : days_in_month (year (ts_date t)) (mon (ts_date t)) <= 31).
    { unfold days_in_month.
      repeat match goal with |- context [if ?b then _ else _] => destruct b end; lia. }
    lia. }
  lia.
Qed.

(** ** What [clean] drops, keeps and raises *)


Lemma incomplete_iff (r : Raw.row) :
  row_isna r = true <-> incomplete r.
Proof.
  unfold row_isna, incomplete. simpl.
  destruct (Raw.date r), (Raw.amount r), (Raw.category r), (Raw.description r);
    simpl; split; intro H; try reflexivity; try discriminate H; auto;
    exfalso; intuition discriminate.
Qed.

Lemma complete_iff (r : Raw.row) :
  row_isna r = false <-> ~ incomplete r.
Proof.
  rewrite <- incomplete_iff. destruct (row_isna r); split; intro H;
    try reflexivity; try discriminate H; try (intro H'; discriminate H').
  exfalso. now apply H.
Qed.



Section RecordFacts.
Context {conv : Conversions}.

Lemma astype_float_value (v : value) (q : Qc) :
  astype_float v = Ok q <-> amount_value v q.
Proof.
  split.
  - destruct v as [|s|p|d|t]; simpl; intro H; try discriminate H.
    + destruct (float_of_str s) as [p|] eqn:E; [|discriminate H].
      injection H as <-. now constructor.
    + injection H as <-. constructor.
  - intros [p|s p E]; simpl; [reflexivity | now rewrite E].
Qed.





End RecordFacts.



(** ** The period of a kept record *)

(** C9, counterexample: the row whose date text is the marker [NaT] is
    kept, and its period is missing rather than a year and month. *)
Lemma period_missing_for_missing_date :
  (exists c, clean (conv := Reference.plain) missing_date_marker = Ok [c] /\
             Clean.date c = None /\ Clean.month c = None) /\
  ~ period_always_formatted (conv := Reference.plain) missing_date_marker.
Proof.
  split.
  - eexists. repeat split; reflexivity.
  - intro H. destruct (H _ _ eq_refl (or_introl eq_refl)) as (y & m & E).
    discriminate E.
Qed.

(** C9, amended: for every row [clean] keeps whose date converted to a
    timestamp, the month field is the four-digit year and the two-digit
    month of that timestamp, zero padded, as [YYYY-MM]; a kept row whose
    date is missing ([NaT]) has a missing month. *)
Theorem period_of_kept_record {conv : Conversions}
        (df : list Raw.row) (out : list Clean.row) (c : Clean.row) :
  clean df = Ok out -> In c out ->
  match Clean.date c with
  | Some t =>
      1677 <= year (ts_date t) <= 2262 /\ 1 <= mon (ts_date t) <= 12 /\
      Clean.month c = Some (YYYY_MM (year (ts_date t)) (mon (ts_date t)))
  | None => Clean.month c = None
  end.
Proof.
  intros Hclean Hin.
  pose proof (clean_Ok _ _ Hclean) as H2.
  assert (Hr : exists r : Raw.row, normalized_from r c).
  { clear Hclean. induction H2 as [|r c' l l' Hrc _ IH]; [contradiction|].
    destruct Hin as [<-|Hin]; eauto. }
  destruct Hr as (r & _ & _ & _ & _ & Hd & Hm).
  destruct (Clean.date c) as [t|]; [|exact Hm].
  apply to_datetime_valid in Hd. apply valid_timestamp_bounds in Hd as [Hy Hmon].
  repeat split; try lia.
  rewrite Hm. cbn [option_map]. rewrite strftime_year_month by lia. reflexivity.
Qed.

Lemma period_of_kept_record_witness :
  Clean.month (Clean.mk 1 (Some (mkts (mkdate 2024 1 20) 0)) (qc 50 1)
                        (Str "Food") (Str "snack") (Some "2024-01"))
  = Some "2024-01".
Proof.
  apply (period_of_kept_record (conv := Reference.plain) scenario scenario_cleaned
           (Clean.mk 1 (Some (mkts (mkdate 2024 1 20) 0)) (qc 50 1)
                     (Str "Food") (Str "snack") (Some "2024-01"))).
  - reflexivity.
  - right; left; reflexivity.
Defined.

(** ** Grouping *)

Lemma series_sum_perm (xs ys : list Qc) :
  Permutation xs ys -> series_sum xs = series_sum ys.
Proof.
  induction 1 as [|x xs ys _ IH|x y xs|xs ys zs _ IH1 _ IH2]; simpl.
  - reflexivity.
  - now rewrite IH.
  - ring.
  - now rewrite IH1.
Qed.

Lemma series_sum_pointwise {A} (a b : A -> Qc) (l : list A) :
  series_sum (map (fun k => (a k + b k)%Qc) l)
  = (series_sum (map a l) + series_sum (map b l))%Qc.
Proof.
  induction l as [|k l IH]; simpl.
  - ring.
  - rewrite IH. ring.
Qed.

Lemma NoDup_map_fst_filter {A B} (f : A * B -> bool) (l : list (A * B)) :
  NoDup (map fst l) -> NoDup (map fst (filter f l)).
Proof.
  induction l as [|x l IH]; simpl; intro H; [constructor|].
  inversion H as [|? ? Hx Hl]; subst.
  destruct (f x); simpl; [constructor|]; auto.
  intro Hin. apply Hx. apply in_map_iff in Hin as (y & Ey & Hy).
  apply filter_In in Hy as [Hy _]. apply in_map_iff. eauto.
Qed.

Section GroupingFacts.
Context {R K : Type}.
Variable eq_dec : forall a b : K, {a = b} + {a <> b}.
Variable leb : K -> K -> bool.
Variable key : R -> option K.

Lemma insert_key_perm (k : K) (ks : list K) :
  Permutation (insert_key leb k ks) (k :: ks).
Proof.
  induction ks as [|x ks IH]; simpl.
  - apply Permutation_refl.
  - destruct (leb k x).
    + apply Permutation_refl.
    + eapply perm_trans; [apply perm_skip, IH | apply perm_swap].
Qed.

Lemma sort_keys_perm (ks : list K) : Permutation (sort_keys leb ks) ks.
Proof.
  induction ks as [|k ks IH]; simpl.
  - apply Permutation_refl.
  - eapply perm_trans; [apply insert_key_perm | apply perm_skip, IH].
Qed.

Lemma present_keys_In (df : list R) (k : K) :
  In k (present_keys key df) <-> exists r, In r df /\ key r = Some k.
Proof.
  unfold present_keys. rewrite in_flat_map. split.
  - intros (r & Hr & Hk). exists r. split; [exact Hr|].
    destruct (key r) as [k'|]; simpl in Hk; [|contradiction].
    destruct Hk as [->|[]]. reflexivity.
  - intros (r & Hr & Hk). exists r. split; [exact Hr|].
    rewrite Hk. now left.
Qed.

Lemma groupby_keys (df : list R) :
  map fst (groupby eq_dec leb key df)
  = sort_keys leb (nodup eq_dec (present_keys key df)).
Proof. unfold groupby. rewrite map_map. simpl. apply map_id. Qed.

Lemma groupby_keys_perm (df : list R) :
  Permutation (map fst (groupby eq_dec leb key df))
              (nodup eq_dec (present_keys key df)).
Proof. rewrite groupby_keys. apply sort_keys_perm. Qed.

Lemma groupby_NoDup (df : list R) : NoDup (map fst (groupby eq_dec leb key df)).
Proof.
  eapply Permutation_NoDup.
  - apply Permutation_sym, groupby_keys_perm.
  - apply NoDup_nodup.
Qed.

Lemma groupby_key_In (df : list R) (k : K) :
  In k (map fst (groupby eq_dec leb key df)) <-> exists r, In r df /\ key r = Some k.
Proof.
  rewrite <- present_keys_In. split; intro H.
  - apply (nodup_In eq_dec).
    eapply Permutation_in; [apply groupby_keys_perm | exact H].
  - apply (nodup_In eq_dec) in H.
    eapply Permutation_in; [apply Permutation_sym, groupby_keys_perm | exact H].
Qed.

Lemma groupby_group (df : list R) (k : K) (g : list R) :
  In (k, g) (groupby eq_dec leb key df) -> g = filter (has_key eq_dec key k) df.
Proof.
  unfold groupby. intro H. apply in_map_iff in H as (k' & E & _).
  now injection E as <- <-.
Qed.

Lemma groupby_spec (df : list R) :
  groupby eq_dec leb key df
  = map (fun k => (k, filter (has_key eq_dec key k) df))
        (map fst (groupby eq_dec leb key df)).
Proof. rewrite groupby_keys. reflexivity. Qed.

(** Summing [f] group by group counts every row with a key once. *)
Variable f : R -> Qc.

Lemma indicator_sum (ks : list K) (k0 : K) (a : Qc) :
  NoDup ks -> In k0 ks ->
  series_sum (map (fun k => if eq_dec k0 k then a else Q2Qc 0) ks) = a.
Proof.
  induction 1 as [|k ks Hk _ IH]; intro Hin; [contradiction|].
  simpl. destruct Hin as [->|Hin].
  - destruct (eq_dec k0 k0) as [_|N]; [|contradiction].
    assert (Z0 : series_sum (map (fun k => if eq_dec k0 k then a else Q2Qc 0) ks)
                 = Q2Qc 0).
    { clear IH. induction ks as [|k ks IH]; [reflexivity|]. simpl.
      destruct (eq_dec k0 k) as [->|_].
      - exfalso. apply Hk. now left.
      - rewrite IH; [ring|]. intro H. apply Hk. now right. }
    rewrite Z0. ring.
  - destruct (eq_dec k0 k) as [<-|_]; [contradiction|].
    rewrite (IH Hin). ring.
Qed.

Lemma partition_sum (ks : list K) (df : list R) :
  NoDup ks ->
  (forall r, In r df -> exists k, key r = Some k /\ In k ks) ->
  series_sum (map (fun k => series_sum (map f (filter (has_key eq_dec key k) df))) ks)
  = series_sum (map f df).
Proof.
  intros Hnd. induction df as [|r df IH]; intro Hall.
  - simpl. clear Hnd Hall. induction ks as [|k ks IHk]; [reflexivity|].
    simpl. rewrite IHk. ring.
  - destruct (Hall r (or_introl eq_refl)) as (k0 & Hk0 & Hin0).
    transitivity
      (series_sum (map (fun k => ((if eq_dec k0 k then f r else Q2Qc 0)
                                  + series_sum (map f (filter (has_key eq_dec key k) df)))%Qc)
                       ks)).
    + f_equal. apply map_ext. intro k. simpl. unfold has_key at 1. rewrite Hk0.
      destruct (eq_dec k0 k); simpl; [reflexivity | ring].
    + rewrite series_sum_pointwise, (indicator_sum ks k0 (f r) Hnd Hin0).
      rewrite IH; [reflexivity|]. intros r' Hr'. apply Hall. now right.
Qed.

Lemma groupby_sum (df : list R) :
  (forall r, In r df -> key r <> None) ->
  series_sum (map (fun kg => series_sum (map f (snd kg))) (groupby eq_dec leb key df))
  = series_sum (map f df).
Proof.
  intro Hkey. rewrite groupby_spec, map_map. simpl.
  apply partition_sum.
  - apply groupby_NoDup.
  - intros r Hr. destruct (key r) as [k|] eqn:Ek.
    + exists k. split; [reflexivity|]. apply groupby_key_In. eauto.
    + exfalso. exact (Hkey r Hr Ek).
Qed.

End GroupingFacts.

(** ** Totals and subtotals *)

Lemma clean_normalized {conv : Conversions} (df : list Raw.row) (out : list Clean.row) :
  clean df = Ok out -> Forall (fun c => Clean.date c <> None) out -> normalized out.
Proof.
  intros Hclean Hdates.
  pose proof (clean_Ok _ _ Hclean) as H2.
  pose proof (dropna_complete df) as Hna.
  remember (dropna df) as kept eqn:Ekept. clear Ekept Hclean.
  revert Hna Hdates.
  induction H2 as [|r c l l' Hrc _ IH]; intros Hna Hdates; constructor.
  - assert (S : settled c).
    { apply (normalized_settled r c); [now inversion Hna | exact Hrc | now inversion Hdates]. }
    destruct S as (t & _ & _ & Hm & Hc & _). split.
    + intro E. rewrite E in Hc. discriminate Hc.
    + rewrite Hm. discriminate.
  - apply IH; [now inversion Hna | now inversion Hdates].
Qed.

Lemma totals_sum {K} (groups : list (K * list Clean.row)) :
  map snd (totals groups) = map (fun kg => series_sum (map Clean.amount (snd kg))) groups.
Proof. unfold totals. rewrite map_map. reflexivity. Qed.

(** C4: on every normalized record set (the non-empty ones included) the
    total [analyze] returns equals the sum of the category subtotals and
    the sum of the period subtotals. *)
Theorem total_equals_subtotals (df : list Clean.row) total by_cat by_month :
  normalized df ->
  analyze df = (total, by_cat, by_month) ->
  total = series_sum (map snd by_cat) /\
  total = series_sum (map snd by_month).
Proof.
  intros Hnorm H. unfold analyze in H. injection H as <- <- <-.
  rewrite !totals_sum. unfold by_category, by_period, amount_sum. split; symmetry.
  - apply groupby_sum. intros r Hr.
    eapply Forall_forall in Hnorm; [|exact Hr]. destruct Hnorm as [Hc _].
    unfold category_key. destruct (Clean.category r); congruence.
  - apply groupby_sum. intros r Hr.
    eapply Forall_forall in Hnorm; [|exact Hr]. now destruct Hnorm as [_ Hm].
Qed.

Lemma total_equals_subtotals_witness :
  qc 350 1 = series_sum (map snd [(Str "Food", qc 150 1); (Str "Travel", qc 200 1)]) /\
  qc 350 1 = series_sum (map snd [("2024-01", qc 150 1); ("2024-02", qc 200 1)]).
Proof.
  apply (total_equals_subtotals scenario_cleaned).
  - repeat constructor; discriminate.
  - reflexivity.
Defined.

(** ** Overspend alerts *)

Lemma category_group (c : value) (df : list Clean.row) :
  c <> NA ->
  filter (has_key value_eq_dec category_key c) df
  = filter (fun r => if value_eq_dec (Clean.category r) c then true else false) df.
Proof.
  intro Hc. apply filter_ext. intro r. unfold has_key, category_key.
  destruct (Clean.category r) eqn:E;
    try reflexivity.
  destruct (value_eq_dec NA c); [congruence | reflexivity].
Qed.

Lemma category_key_Some (r : Clean.row) (c : value) :
  category_key r = Some c <-> Clean.category r = c /\ c <> NA.
Proof.
  unfold category_key. destruct (Clean.category r); split.
  all: try (intro H; discriminate H).
  all: try (intro H; injection H as <-; split; [reflexivity | discriminate]).
  all: try (intros [<- H]; reflexivity).
  intros [<- H]. congruence.
Qed.

Section AlertFacts.
Context {conv : Conversions}.

Lemma overspend_alerts_filter groups (limit : Qc) :
  overspend_alerts groups limit
  = map (fun kg => alert (fst kg) (amount_sum (snd kg)))
        (filter (fun kg => Qcltb limit (amount_sum (snd kg))) groups).
Proof.
  induction groups as [|[c g] groups IH]; simpl; [reflexivity|].
  destruct (Qcltb limit (amount_sum g)); simpl; now rewrite IH.
Qed.

Lemma category_total_sum (c : value) (df : list Clean.row) :
  category_total c df = category_sum c df.
Proof.
  unfold category_total. induction df as [|r df IH]; [reflexivity|].
  simpl. destruct (value_eq_dec (Clean.category r) c); [|exact IH].
  change (amount_sum (r :: ?g)) with (Clean.amount r + amount_sum g)%Qc.
  now rewrite IH.
Qed.

Lemma Forall2_maps {A B C} (P : B -> C -> Prop) (f : A -> B) (g : A -> C) (l : list A) :
  (forall a, In a l -> P (f a) (g a)) -> Forall2 P (map f l) (map g l).
Proof.
  induction l as [|a l IH]; intro H; simpl; constructor.
  - apply H. now left.
  - apply IH. intros x Hx. apply H. now right.
Qed.

(** C2: for every cleaned frame and every limit, [detect_overspend]
    returns one alert for each distinct category whose summed amount is
    strictly above the limit, and no other: a category whose sum equals
    the limit or is below it has none.  The alert of a category reads
    "High spending in", the name of the category (its text), and its
    total after the rupee sign.  The limit defaults to 3000. *)
Theorem overspend_alert_per_category (df : list Clean.row) (limit : Qc) :
  (exists hits : list value,
      NoDup hits /\
      (forall c, In c hits <->
                 c <> NA /\ In c (map Clean.category df) /\
                 (limit < category_sum c df)%Qc) /\
      Forall2 (fun c a => exists name,
                 a = alert_text name (category_sum c df) /\
                 forall s, c = Str s -> name = s)
              hits (detect_overspend df limit)) /\
  detect_overspend_default df = detect_overspend df (qc 3000 1).
Proof.
  split; [|reflexivity].
  set (hit := fun kg : value * list Clean.row => Qcltb limit (amount_sum (snd kg))).
  exists (map fst (filter hit (by_category df))).
  assert (Hgroup : forall c g, In (c, g) (by_category df) ->
                               c <> NA /\ In c (map Clean.category df) /\
                               amount_sum g = category_sum c df).
  { intros c g Hin.
    assert (Hk : In c (map fst (by_category df))).
    { apply in_map_iff. exists (c, g). now split. }
    apply groupby_key_In in Hk as (r & Hr & Hkey).
    apply category_key_Some in Hkey as [Hcat Hc].
    split; [exact Hc|]. split.
    - apply in_map_iff. eauto.
    - apply groupby_group in Hin. subst g. rewrite <- category_total_sum.
      unfold category_total. now rewrite category_group. }
  split; [|split].
  - apply NoDup_map_fst_filter. apply groupby_NoDup.
  - intro c. split.
    + intro Hin. apply in_map_iff in Hin as ([c' g] & E & Hin). simpl in E. subst c'.
      apply filter_In in Hin as [Hin Hhit].
      destruct (Hgroup c g Hin) as (Hc & Hcat & Hsum).
      split; [exact Hc|]. split; [exact Hcat|].
      rewrite <- Hsum. now apply Qcltb_lt.
    + intros (Hc & Hcat & Hlt).
      apply in_map_iff in Hcat as (r & Hcat & Hr).
      assert (Hk : In c (map fst (by_category df))).
      { apply groupby_key_In. exists r. split; [exact Hr|].
        now apply category_key_Some. }
      apply in_map_iff in Hk as ([c' g] & E & Hin). simpl in E. subst c'.
      apply in_map_iff. exists (c, g). split; [reflexivity|].
      apply filter_In. split; [exact Hin|].
      destruct (Hgroup c g Hin) as (_ & _ & Hsum).
      unfold hit. simpl. rewrite Hsum. now apply Qcltb_lt.
  - unfold detect_overspend. rewrite overspend_alerts_filter. fold hit.
    apply Forall2_maps. intros [c g] Hin. apply filter_In in Hin as [Hin _].
    destruct (Hgroup c g Hin) as (_ & _ & Hsum). simpl.
    exists (py_str c). split.
    + unfold alert, alert_text. now rewrite Hsum.
    + intros s ->. reflexivity.
Qed.

End AlertFacts.

(** The boundary of the default limit: a category summing to exactly
    3000 raises no alert, one summing to 3000.01 raises one. *)
Example overspend_boundary :
  detect_overspend_default (conv := Reference.plain)
    [ Clean.mk 0 (Some (mkts (mkdate 2024 1 5) 0)) (qc 1000 1) (Str "Food") (Str "a")
               (Some "2024-01");
      Clean.mk 1 (Some (mkts (mkdate 2024 1 6) 0)) (qc 2000 1) (Str "Food") (Str "b")
               (Some "2024-01");
      Clean.mk 2 (Some (mkts (mkdate 2024 1 7) 0)) (qc 300001 100) (Str "Rent") (Str "c")
               (Some "2024-01") ]
  = ["⚠️ High spending in Rent: ₹3000.01"].
Proof. reflexivity. Qed.

(** ** Deleting from the store *)

Lemma length_relabel (i : Z) (df : list Raw.row) : List.length (relabel i df) = List.length df.
Proof. revert i. induction df as [|r df IH]; intro i; simpl; [|rewrite IH]; reflexivity. Qed.

Lemma nth_error_relabel (i : Z) (df : list Raw.row) (n : nat) :
  nth_error (relabel i df) n = option_map (set_label (i + Z.of_nat n)) (nth_error df n).
Proof.
  revert i n. induction df as [|r df IH]; intros i [|n]; simpl; try reflexivity.
  - now rewrite Z.add_0_r.
  - rewrite IH. now replace (i + 1 + Z.of_nat n) with (i + Z.of_nat (S n)) by lia.
Qed.

Lemma filter_none {A} (f : A -> bool) (l : list A) :
  existsb f l = false -> filter (fun a => negb (f a)) l = l.
Proof.
  induction l as [|a l IH]; simpl; intro H; [reflexivity|].
  apply orb_false_iff in H as [Ha Hl]. rewrite Ha. simpl. now rewrite IH.
Qed.

(** In a frame labelled i, i+1, ... the label [p] names the row at
    position [p - i], and no row when [p] is out of that range. *)
Lemma drop_position (df : list Raw.row) (i p : Z) :
  relabel i df = df ->
  (i <= p < i + Z.of_nat (List.length df) ->
   exists before r after,
     df = before ++ r :: after /\ Z.of_nat (List.length before) = p - i /\
     existsb (fun r => Raw.label r =? p) df = true /\
     filter (fun r => negb (Raw.label r =? p)) df = before ++ after) /\
  (~ i <= p < i + Z.of_nat (List.length df) ->
   existsb (fun r => Raw.label r =? p) df = false).
Proof.
  revert i. induction df as [|r df IH]; intros i Hrange.
  - split; [simpl; lia | reflexivity].
  - simpl in Hrange. injection Hrange as Hr Hrest.
    assert (Hl : Raw.label r = i) by (rewrite <- Hr; reflexivity).
    destruct (IH (i + 1) Hrest) as [IHin IHout].
    change (List.length (r :: df)) with (S (List.length df)). split.
    + intro Hp. destruct (Z.eq_dec p i) as [->|Hne].
      * exists [], r, df. simpl. rewrite Hl, Z.eqb_refl. simpl.
        repeat split; try lia.
        apply filter_none. apply IHout. lia.
      * destruct IHin as (before & r' & after & E & Hlen & Hex & Hfil); [lia|].
        exists (r :: before), r', after. simpl. rewrite Hl.
        assert (Hb : (i =? p) = false) by (apply Z.eqb_neq; lia).
        rewrite Hb. simpl. rewrite Hex, Hfil, E.
        repeat split; lia.
    + intro Hp. simpl. rewrite Hl.
      assert (Hb : (i =? p) = false) by (apply Z.eqb_neq; lia).
      rewrite Hb. simpl. apply IHout. lia.
Qed.

Lemma relabel_relabel (i j : Z) (df : list Raw.row) :
  relabel i (relabel j df) = relabel i df.
Proof.
  revert i j. induction df as [|r df IH]; intros i j; simpl; [reflexivity|].
  now rewrite IH.
Qed.

Lemma relabel_update (i p : Z) (r' : Raw.row) (df : list Raw.row) :
  Raw.label r' = p -> relabel i df = df ->
  relabel i (map (fun r => if Raw.label r =? p then r' else r) df)
  = map (fun r => if Raw.label r =? p then r' else r) df.
Proof.
  intro Hp. revert i. induction df as [|r df IH]; intros i H; simpl; [reflexivity|].
  simpl in H. injection H as Hr Hrest. rewrite (IH _ Hrest). f_equal.
  assert (Hl : Raw.label r = i) by (rewrite <- Hr; reflexivity).
  destruct (Raw.label r =? p) eqn:E.
  - apply Z.eqb_eq in E. destruct r' as [l d a c e]. simpl in Hp.
    unfold set_label. simpl. f_equal. congruence.
  - exact Hr.
Qed.

(** The store of every reachable session is indexed 0, 1, 2, ... *)
Lemma reachable_range_index {conv : Conversions} (s : session) :
  reachable s -> reset_index (data s) = data s.
Proof.
  unfold reset_index.
  induction 1 as [|s d a c cu de _ IH|s text s' _ IH Himp|s p _ IH
                  |s d a c de _ IH|s _ IH|s p _ IH].
  - reflexivity.
  - unfold add_expense. destruct (Qcltb _ a); [|exact IH].
    simpl. unfold concat_ignore_index, reset_index. apply relabel_relabel.
  - unfold import_csv in Himp. destruct (read_csv text); [|discriminate Himp].
    injection Himp as <-. simpl.
    unfold concat_ignore_index, reset_index. apply relabel_relabel.
  - exact IH.
  - unfold update_expense. destruct (edit_index s) as [p|]; [|exact IH].
    destruct (existsb _ (data s)); [|exact IH].
    simpl. now apply relabel_update.
  - exact IH.
  - unfold delete_expense. destruct (drop p (data s)); [|exact IH].
    simpl. unfold reset_index. apply relabel_relabel.
Qed.

(** C8: on a store indexed 0, 1, 2, ..., deleting at a valid position
    [p] removes exactly the record at [p], keeps the records before it in
    place and moves every later record down by one position; at any other
    position, and so at every position of an empty store, the deletion
    fails with [KeyError] (the store's out-of-range error) and the store
    is unchanged. *)
Theorem delete_expense_spec (s : session) (p : Z) :
  reset_index (data s) = data s ->
  (0 <= p < Z.of_nat (List.length (data s)) ->
   exists before r after,
     data s = before ++ r :: after /\ Z.of_nat (List.length before) = p /\
     delete_expense p s
     = (mksession (reset_index (before ++ after)) (edit_index s), Ok tt) /\
     forall i : nat,
       nth_error (data (fst (delete_expense p s))) i
       = option_map (set_label (Z.of_nat i))
                    (nth_error (data s) (if Z.of_nat i <? p then i else S i))) /\
  (~ 0 <= p < Z.of_nat (List.length (data s)) ->
   delete_expense p s = (s, Raise KeyError)) /\
  (data s = [] -> delete_expense p s = (s, Raise KeyError)).
Proof.
  intro Hrange. destruct (drop_position (data s) 0 p Hrange) as [Hin Hout].
  split; [|split].
  - intro Hp. destruct Hin as (before & r & after & E & Hlen & Hex & Hfil); [lia|].
    exists before, r, after.
    assert (Hdel : delete_expense p s
                   = (mksession (reset_index (before ++ after)) (edit_index s), Ok tt)).
    { unfold delete_expense, drop. now rewrite Hex, Hfil. }
    repeat split; [exact E | lia | exact Hdel |].
    intro i. rewrite Hdel. simpl. unfold reset_index.
    rewrite nth_error_relabel, E. simpl. f_equal.
    destruct (Z.of_nat i <? p) eqn:Hi.
    + apply Z.ltb_lt in Hi. rewrite !nth_error_app1 by lia. reflexivity.
    + apply Z.ltb_ge in Hi. rewrite !nth_error_app2 by lia.
      replace (S i - List.length before)%nat with (S (i - List.length before)) by lia.
      reflexivity.
  - intro Hp. unfold delete_expense, drop. now rewrite (Hout ltac:(lia)).
  - intro Hempty. unfold delete_expense, drop. now rewrite Hempty.
Qed.

Lemma delete_expense_spec_witness :
  delete_expense 7 (mksession scenario None) = (mksession scenario None, Raise KeyError) /\
  delete_expense 0 (mksession [] None) = (mksession [] None, Raise KeyError) /\
  nth_error (data (fst (delete_expense 1 (mksession scenario None)))) 1
  = option_map (set_label 1) (nth_error scenario 2).
Proof.
  split; [|split].
  - destruct (delete_expense_spec (mksession scenario None) 7 eq_refl) as (_ & H & _).
    apply H. simpl. lia.
  - destruct (delete_expense_spec (mksession [] None) 0 eq_refl) as (_ & _ & H).
    apply H. reflexivity.
  - destruct (delete_expense_spec (mksession scenario None) 1 eq_refl) as [H _].
    destruct H as (before & r & after & _ & _ & _ & H); [simpl; lia|].
    exact (H 1%nat).
Defined.

(** ** The tokenizer on exported text *)

Lemma append_snoc (a : string) (c : ascii) (s : string) :
  ((a ++ String c EmptyString) ++ s)%string = (a ++ String c s)%string.
Proof. induction a as [|x a IH]; simpl; [|rewrite IH]; reflexivity. Qed.

Lemma append_empty_r (a : string) : (a ++ EmptyString)%string = a.
Proof. induction a as [|x a IH]; simpl; [|rewrite IH]; reflexivity. Qed.

Lemma run_app (t : lexer) (s1 s2 : string) :
  run t (s1 ++ s2)%string = run (run t s1) s2.
Proof. revert t. induction s1 as [|c s1 IH]; intro t; simpl; [|rewrite IH]; reflexivity. Qed.

Lemma unquoted_char (c : ascii) (s : string) :
  contains special (String c s) = false -> cr_free (String c s) = true ->
  Ascii.eqb c LF = false /\ Ascii.eqb c CR = false /\ Ascii.eqb c comma = false /\
  Ascii.eqb c dquote = false /\ contains special s = false /\ cr_free s = true.
Proof.
  unfold cr_free, special. simpl. intros H1 H2.
  apply negb_true_iff in H2.
  apply orb_false_iff in H1 as [H1 H1']. apply orb_false_iff in H1 as [H1 Hlf].
  apply orb_false_iff in H1 as [Hc Hq]. apply orb_false_iff in H2 as [Hcr H2].
  rewrite H2. repeat split; assumption.
Qed.

Lemma in_field_run (s : string) (w : string) l ls :
  contains special s = false -> cr_free s = true ->
  run (mklexer IN_FIELD w l ls) s = mklexer IN_FIELD (w ++ s) l ls.
Proof.
  revert w. induction s as [|c s IH]; intros w Hs Hcr; simpl.
  - now rewrite append_empty_r.
  - destruct (unquoted_char c s Hs Hcr) as (Hlf & Hr & Hc & _ & Hs' & Hcr').
    unfold step, in_field_step. simpl. rewrite Hlf, Hr, Hc.
    unfold goto, push. simpl. rewrite IH by assumption. now rewrite append_snoc.
Qed.

Lemma whitespace_line_run (s : string) (w : string) l ls :
  contains special s = false -> cr_free s = true ->
  exists st, (st = WHITESPACE_LINE \/ st = IN_FIELD) /\
             run (mklexer WHITESPACE_LINE w l ls) s = mklexer st (w ++ s) l ls.
Proof.
  revert w. induction s as [|c s IH]; intros w Hs Hcr; simpl.
  - exists WHITESPACE_LINE. rewrite append_empty_r. auto.
  - destruct (unquoted_char c s Hs Hcr) as (Hlf & Hr & Hc & _ & Hs' & Hcr').
    unfold step. simpl. rewrite Hlf, Hr.
    destruct (Ascii.eqb c space || Ascii.eqb c tab).
    + unfold push. simpl. destruct (IH (w ++ String c EmptyString)%string Hs' Hcr')
        as (st & Hst & E).
      exists st. split; [exact Hst|]. now rewrite E, append_snoc.
    + unfold in_field_step. rewrite Hlf, Hr, Hc. unfold goto, push. simpl.
      exists IN_FIELD. split; [now right|].
      rewrite in_field_run by assumption. now rewrite append_snoc.
Qed.

Lemma quoted_run (s : string) (w : string) l ls :
  run (mklexer IN_QUOTED_FIELD w l ls) (escape_quotes s)
  = mklexer IN_QUOTED_FIELD (w ++ s) l ls.
Proof.
  revert w. induction s as [|c s IH]; intro w; simpl.
  - now rewrite append_empty_r.
  - destruct (Ascii.eqb c dquote) eqn:Hq; simpl.
    + apply Ascii.eqb_eq in Hq. subst c. unfold step. simpl.
      unfold goto, push. simpl. now rewrite IH, append_snoc.
    + unfold step. simpl. rewrite Hq. unfold push. simpl. now rewrite IH, append_snoc.
Qed.

Lemma quoted_field_run (f : string) l ls :
  run (mklexer IN_QUOTED_FIELD EmptyString l ls)
      (escape_quotes f ++ String dquote EmptyString)%string
  = mklexer QUOTE_IN_QUOTED_FIELD f l ls.
Proof. rewrite run_app, quoted_run. reflexivity. Qed.

Lemma field_run (f : string) l ls :
  cr_free f = true ->
  exists st, closes st /\
             run (mklexer START_FIELD EmptyString l ls) (quote_field f) = mklexer st f l ls.
Proof.
  intro Hcr. unfold quote_field, closes. destruct (contains special f) eqn:Hs.
  - exists QUOTE_IN_QUOTED_FIELD. split; [auto|].
    change (run (run (mklexer START_FIELD EmptyString l ls) (String dquote EmptyString))
                (escape_quotes f ++ String dquote EmptyString)%string
            = mklexer QUOTE_IN_QUOTED_FIELD f l ls).
    apply quoted_field_run.
  - destruct f as [|c f].
    + exists START_FIELD. auto.
    + exists IN_FIELD. split; [auto|].
      destruct (unquoted_char c f Hs Hcr) as (Hlf & Hr & Hc & Hq & Hs' & Hcr').
      simpl. unfold step, start_field_step, in_field_step. simpl.
      rewrite Hq, Hlf, Hr, Hc. unfold goto, push. simpl.
      now rewrite in_field_run.
Qed.

Lemma first_field_run (f : string) ls :
  cr_free f = true ->
  exists st, (st = START_RECORD \/ st = WHITESPACE_LINE \/ closes st) /\
             run (mklexer START_RECORD EmptyString [] ls) (quote_field f)
             = mklexer st f [] ls.
Proof.
  intro Hcr. unfold quote_field. destruct (contains special f) eqn:Hs.
  - exists QUOTE_IN_QUOTED_FIELD. split; [unfold closes; auto|].
    change (run (run (mklexer START_RECORD EmptyString [] ls) (String dquote EmptyString))
                (escape_quotes f ++ String dquote EmptyString)%string
            = mklexer QUOTE_IN_QUOTED_FIELD f [] ls).
    apply quoted_field_run.
  - destruct f as [|c f].
    + exists START_RECORD. auto.
    + destruct (unquoted_char c f Hs Hcr) as (Hlf & Hr & Hc & Hq & Hs' & Hcr').
      simpl. unfold step, start_record_step. simpl. rewrite Hlf, Hr.
      destruct (Ascii.eqb c space || Ascii.eqb c tab).
      * unfold goto, push. simpl.
        destruct (whitespace_line_run f (String c EmptyString) [] ls Hs' Hcr')
          as (st & Hst & E).
        exists st. split; [|exact E].
        destruct Hst as [->| ->]; unfold closes; auto.
      * unfold start_field_step, in_field_step. rewrite Hq, Hlf, Hr, Hc.
        unfold goto, push. simpl. exists IN_FIELD. split; [unfold closes; auto|].
        now rewrite in_field_run.
Qed.

Lemma comma_step (st : lexer_state) (w : string) l ls :
  st = START_RECORD \/ st = WHITESPACE_LINE \/ closes st ->
  step comma (mklexer st w l ls) = mklexer START_FIELD EmptyString (l ++ [w]) ls.
Proof. unfold closes. intros [->|[->|[->|[->| ->]]]]; reflexivity. Qed.

Lemma newline_step (st : lexer_state) (w : string) l ls :
  closes st ->
  step LF (mklexer st w l ls) = mklexer START_RECORD EmptyString [] (ls ++ [l ++ [w]]).
Proof. unfold closes. intros [->|[->| ->]]; reflexivity. Qed.

Lemma append_assoc (a b c : string) :
  ((a ++ b) ++ c)%string = (a ++ (b ++ c))%string.
Proof. induction a as [|x a IH]; simpl; [|rewrite IH]; reflexivity. Qed.

Lemma csv_line_cons (f f' : string) (fs : list string) :
  csv_line (f :: f' :: fs)
  = (quote_field f ++ String comma (csv_line (f' :: fs)))%string.
Proof.
  unfold csv_line.
  change (join_fields (f :: f' :: fs))
    with (quote_field f ++ String comma (join_fields (f' :: fs)))%string.
  now rewrite append_assoc.
Qed.

Lemma run_field_comma (t : lexer) (f rest : string) :
  run t (f ++ String comma rest)%string = run (step comma (run t f)) rest.
Proof. now rewrite run_app. Qed.

Lemma rest_of_line_run (fs : list string) (f : string) l ls :
  Forall (fun f => cr_free f = true) (f :: fs) ->
  run (mklexer START_FIELD EmptyString l ls) (csv_line (f :: fs))
  = mklexer START_RECORD EmptyString [] (ls ++ [l ++ f :: fs]).
Proof.
  revert f l. induction fs as [|f' fs IH]; intros f l H.
  - inversion H as [|? ? Hf _]; subst. unfold csv_line. simpl join_fields.
    rewrite run_app. destruct (field_run f l ls Hf) as (st & Hst & E).
    rewrite E. simpl. now apply newline_step.
  - inversion H as [|? ? Hf H']; subst.
    rewrite csv_line_cons, run_field_comma.
    destruct (field_run f l ls Hf) as (st & Hst & E). rewrite E.
    rewrite comma_step by auto.
    rewrite (IH f' (l ++ [f]) H').
    now rewrite <- app_assoc.
Qed.

Lemma line_run (fs : list string) ls :
  (2 <= List.length fs)%nat -> Forall (fun f => cr_free f = true) fs ->
  run (mklexer START_RECORD EmptyString [] ls) (csv_line fs)
  = mklexer START_RECORD EmptyString [] (ls ++ [fs]).
Proof.
  intros Hlen H. destruct fs as [|f [|f' fs]]; simpl in Hlen; try lia.
  inversion H as [|? ? Hf H']; subst.
  rewrite csv_line_cons, run_field_comma.
  destruct (first_field_run f ls Hf) as (st & Hst & E). rewrite E.
  rewrite comma_step by exact Hst.
  apply (rest_of_line_run fs f' [f] ls H').
Qed.

Lemma lines_run (records : list (list string)) ls :
  Forall well_formed_line records ->
  run (mklexer START_RECORD EmptyString [] ls) (csv_lines records)
  = mklexer START_RECORD EmptyString [] (ls ++ records).
Proof.
  revert ls. induction records as [|fs records IH]; intros ls H; simpl.
  - now rewrite app_nil_r.
  - inversion H as [|? ? [Hlen Hfs] H']; subst.
    rewrite run_app, (line_run fs ls Hlen Hfs), (IH _ H'), <- app_assoc. reflexivity.
Qed.

(** The tokenizer reads back the lines the writer wrote. *)
Lemma tokenize_csv_lines (records : list (list string)) :
  Forall well_formed_line records -> tokenize (csv_lines records) = Some records.
Proof. intro H. unfold tokenize. now rewrite (lines_run records [] H). Qed.

(** ** Export then import *)

Lemma fields_relabel (i : Z) (df : list Raw.row) :
  map fields (relabel i df) = map fields df.
Proof.
  revert i. induction df as [|r df IH]; intro i; simpl; [reflexivity|].
  now rewrite IH.
Qed.

Section RoundTrip.
Context {conv : Conversions}.

Lemma textual_inert (v : value) : textual v -> inert (csv_str v).
Proof. destruct v; simpl; tauto. Qed.

Lemma infer_text_column {A} (fld : A -> option string) (g : A -> value) (l : list A) :
  Forall (fun a => exists s, fld a = Some s /\ csv_number s = None /\
                             member s bool_values = false /\ g a = Str s) l ->
  infer_column (map fld l) = Some (map g l).
Proof.
  intro H. unfold infer_column. destruct l as [|a l]; [reflexivity|].
  assert (Hcells : map text_cell (map fld (a :: l)) = map g (a :: l)).
  { rewrite map_map. apply map_ext_in. intros x Hx.
    eapply Forall_forall in H; [|exact Hx].
    destruct H as (s & -> & _ & _ & ->). reflexivity. }
  inversion H as [|? ? (s & Es & Hn & Hb & _) _]; subst.
  assert (Hnum : forallb is_number (map fld (a :: l)) = false).
  { simpl. rewrite Es. simpl. now rewrite Hn. }
  assert (Hbool : forallb is_bool (map fld (a :: l)) = false).
  { simpl. rewrite Es. simpl. now rewrite Hb. }
  now rewrite Hnum, Hbool, Hcells.
Qed.

Lemma infer_number_column {A} (fld : A -> option string) (g : A -> value) (l : list A) :
  Forall (fun a => exists s q, fld a = Some s /\ csv_number s = Some q /\ g a = Num q) l ->
  infer_column (map fld l) = Some (map g l).
Proof.
  intro H. unfold infer_column.
  assert (Hall : forallb is_number (map fld l) = true).
  { apply forallb_forall. intros f Hf. apply in_map_iff in Hf as (a & <- & Ha).
    eapply Forall_forall in H; [|exact Ha].
    destruct H as (s & q & -> & Hq & _). simpl. now rewrite Hq. }
  rewrite Hall. f_equal. rewrite map_map. apply map_ext_in. intros a Ha.
  eapply Forall_forall in H; [|exact Ha].
  destruct H as (s & q & -> & Hq & ->). simpl. now rewrite Hq.
Qed.

Lemma frame_of_columns_map (g0 g1 g2 g3 : Raw.row -> value) (df : list Raw.row) (i : Z) :
  frame_of_columns i (map g0 df) (map g1 df) (map g2 df) (map g3 df)
  = relabel i (map (fun r => Raw.mk (Raw.label r) (g0 r) (g1 r) (g2 r) (g3 r)) df).
Proof.
  revert i. induction df as [|r df IH]; intro i; simpl; [reflexivity|].
  now rewrite IH.
Qed.

Lemma field_at_inert (j : nat) (fs : list string) (s : string) :
  nth_error fs j = Some s -> member s na_values = false -> field_at j fs = Some s.
Proof. intros E H. unfold field_at. now rewrite E, H. Qed.

Lemma exportable_line (r : Raw.row) : exportable r -> well_formed_line (csv_fields r).
Proof.
  intros (Hd & (q & Ea & Hq & _) & (c & Ec & Hc & _) & (e & Ee & He & _)).
  apply textual_inert in Hd as [Hd _].
  split; [simpl; lia|]. unfold csv_fields. rewrite Ea, Ec, Ee. simpl.
  repeat constructor; assumption.
Qed.

(** C7, amended: for every store of exportable records (a date object
    or date text, a number that prints and parses back exactly, and a
    category and a description that are text without carriage return,
    not empty nor another missing-value marker, and not read as a number
    or a boolean), the exported text is read back as the same records in
    the same order, hence the same multiset, with each date as the text
    of that date. *)
Theorem export_import_roundtrip (store : list Raw.row) :
  Forall exportable store ->
  read_csv (to_csv store) = Some (reset_index (map date_as_text store)) /\
  roundtrip_equivalent store.
Proof.
  intro H.
  assert (Hread : read_csv (to_csv store) = Some (reset_index (map date_as_text store))).
  { unfold read_csv, to_csv. rewrite tokenize_csv_lines.
    2:{ constructor.
        - split; [simpl; lia | repeat constructor].
        - apply Forall_map. eapply Forall_impl; [|exact H]. apply exportable_line. }
    destruct (list_eq_dec string_dec csv_columns csv_columns) as [_|N]; [|contradiction].
    assert (Hlen : forallb (fun fs => (List.length fs <=? 4)%nat) (map csv_fields store)
                   = true).
    { apply forallb_forall. intros fs Hfs. apply in_map_iff in Hfs as (r & <- & _).
      reflexivity. }
    rewrite Hlen, !map_map.
    rewrite (infer_text_column _ (fun r => Str (csv_str (Raw.date r)))).
    2:{ eapply Forall_impl; [|exact H]. intros r (Hd & _).
        apply textual_inert in Hd as (_ & Hna & Hb & Hn).
        exists (csv_str (Raw.date r)). repeat split; try assumption.
        now apply field_at_inert. }
    rewrite (infer_number_column _ Raw.amount).
    2:{ eapply Forall_impl; [|exact H]. intros r (_ & (q & Ea & _ & Hna & Hq) & _).
        exists (float_repr q), q. repeat split; try assumption.
        apply field_at_inert; [|exact Hna]. unfold csv_fields. now rewrite Ea. }
    rewrite (infer_text_column _ Raw.category).
    2:{ eapply Forall_impl; [|exact H].
        intros r (_ & _ & (s & Ec & _ & Hna & Hb & Hn) & _).
        exists s. repeat split; try assumption.
        apply field_at_inert; [|exact Hna]. unfold csv_fields. now rewrite Ec. }
    rewrite (infer_text_column _ Raw.description).
    2:{ eapply Forall_impl; [|exact H].
        intros r (_ & _ & _ & (s & Ee & _ & Hna & Hb & Hn)).
        exists s. repeat split; try assumption.
        apply field_at_inert; [|exact Hna]. unfold csv_fields. now rewrite Ee. }
    rewrite frame_of_columns_map. reflexivity. }
  split; [exact Hread|].
  exists (reset_index (map date_as_text store)). split; [exact Hread|].
  unfold reset_index. rewrite fields_relabel. apply Permutation_refl.
Qed.

End RoundTrip.

(** C7, counterexample: the third record of the scenario has an empty
    description; it is exported as an empty field and read back with a
    missing description, so the records read back are not those
    exported. *)
Lemma empty_description_not_restored :
  option_map (map Raw.description)
             (read_csv (conv := Reference.plain) (to_csv (conv := Reference.plain) scenario))
  = Some [Str "lunch"; Str "snack"; NA] /\
  ~ roundtrip_equivalent (conv := Reference.plain) scenario.
Proof.
  split; [reflexivity|].
  intros (df & Hread & Hperm).
  assert (E : read_csv (conv := Reference.plain) (to_csv (conv := Reference.plain) scenario)
              = Some [ Raw.mk 0 (Str "2024-01-05") (Num (qc 100 1)) (Str "Food") (Str "lunch");
                       Raw.mk 1 (Str "2024-01-20") (Num (qc 50 1)) (Str "Food") (Str "snack");
                       Raw.mk 2 (Str "2024-02-01") (Num (qc 200 1)) (Str "Travel") NA ])
    by reflexivity.
  rewrite E in Hread. injection Hread as <-.
  assert (Hin : In (Str "2024-02-01", Num (qc 200 1), Str "Travel", Str "")
                   (map fields (map (date_as_text (conv := Reference.plain)) scenario))).
  { right; right; left. reflexivity. }
  apply (Permutation_in _ (Permutation_sym Hperm)) in Hin.
  simpl in Hin. unfold fields in Hin. simpl in Hin.
  destruct Hin as [Hin|[Hin|[Hin|[]]]]; discriminate Hin.
Qed.

Lemma export_import_roundtrip_witness :
  read_csv (conv := Reference.plain) (to_csv (conv := Reference.plain) two_expenses)
  = Some (reset_index (map (date_as_text (conv := Reference.plain)) two_expenses)).
Proof.
  apply (export_import_roundtrip (conv := Reference.plain) two_expenses).
  repeat constructor; simpl; try reflexivity; eexists; repeat split; reflexivity.
Defined.

(** * Further properties of the store and the pages *)

(** ** The index of the store *)

Lemma relabel_app (i : Z) (a b : list Raw.row) :
  relabel i (a ++ b) = relabel i a ++ relabel (i + Z.of_nat (List.length a)) b.
Proof.
  revert i. induction a as [|r a IH]; intro i; simpl.
  - now rewrite Z.add_0_r.
  - rewrite IH. do 3 f_equal. lia.
Qed.

Lemma range_index_label (i : Z) (df : list Raw.row) (k : nat) (r : Raw.row) :
  relabel i df = df -> nth_error df k = Some r -> Raw.label r = i + Z.of_nat k.
Proof.
  intros Hrange Hk. pose proof (nth_error_relabel i df k) as E.
  rewrite Hrange, Hk in E. simpl in E. injection E as E.
  apply (f_equal Raw.label) in E. exact E.
Qed.

(** X3: in every session the handlers can reach, the index label of each
    record of the store is its position: the labels are 0, 1, 2, ... *)
Theorem store_labels_are_positions {conv : Conversions} (s : session) (i : nat) (r : Raw.row) :
  reachable s -> nth_error (data s) i = Some r -> Raw.label r = Z.of_nat i.
Proof.
  intros Hreach Hi.
  apply (range_index_label 0 (data s) i r); [|exact Hi].
  now apply reachable_range_index.
Qed.

Lemma store_labels_are_positions_witness :
  Raw.label (Raw.mk 0 (Date (mkdate 2024 3 1)) (Num (qc 12 1)) (Str "Food") (Str "tea"))
  = Z.of_nat 0.
Proof.
  apply (store_labels_are_positions (conv := Reference.plain)
           (add_expense (mkdate 2024 3 1) (qc 12 1) "Food" "" "tea" initial) 0%nat).
  - apply reach_add, reach_initial.
  - reflexivity.
Defined.

(** ** Adding an expense *)

(** X1: the Add Expense form leaves the session as it is when the amount
    is zero or negative; with a positive amount it keeps every record of
    the store in place and appends one record, at the next position, with
    the date, the amount, the stored category and the description. *)
Theorem add_expense_spec (date : pydate) (amount : Qc) (category custom desc : string)
        (s : session) :
  reset_index (data s) = data s ->
  ((amount <= Q2Qc 0)%Qc ->
   add_expense date amount category custom desc s = s) /\
  ((Q2Qc 0 < amount)%Qc ->
   add_expense date amount category custom desc s
   = mksession
       (data s ++ [Raw.mk (Z.of_nat (List.length (data s))) (Date date) (Num amount)
                          (Str (final_category category custom)) (Str desc)])
       (edit_index s)).
Proof.
  intro Hrange. unfold add_expense. split; intro H.
  - apply Qcltb_ge in H. now rewrite H.
  - apply Qcltb_lt in H. rewrite H. f_equal.
    unfold concat_ignore_index, reset_index in *.
    now rewrite relabel_app, Hrange.
Qed.

Lemma add_expense_spec_witness :
  add_expense (mkdate 2024 3 1) (qc 0 1) "Food" "" "tea" (mksession scenario None)
  = mksession scenario None /\
  List.length (data (add_expense (mkdate 2024 3 1) (qc 12 1) "Food" "" "tea"
                                 (mksession scenario None))) = 4%nat.
Proof.
  destruct (add_expense_spec (mkdate 2024 3 1) (qc 0 1) "Food" "" "tea"
                             (mksession scenario None) eq_refl) as [H0 _].
  destruct (add_expense_spec (mkdate 2024 3 1) (qc 12 1) "Food" "" "tea"
                             (mksession scenario None) eq_refl) as [_ H1].
  split.
  - apply H0. discriminate.
  - rewrite H1 by reflexivity. reflexivity.
Defined.

(** X2: for a category chosen in the select box the stored category is
    never empty: it is the custom text when the choice is "Other" and a
    custom text was typed, and the choice itself otherwise. *)
Theorem stored_category_not_blank (category custom : string) :
  In category category_options ->
  final_category category custom <> "" /\
  (category = "Other" -> custom <> "" -> final_category category custom = custom) /\
  (category = "Other" -> custom = "" -> final_category category custom = "Other") /\
  (category <> "Other" -> final_category category custom = category).
Proof.
  intro Hin. unfold final_category.
  destruct (String.eqb_spec category "Other") as [Ho|Ho];
    destruct (String.eqb_spec custom "") as [Hc|Hc]; simpl.
  - subst. repeat split; try reflexivity; try discriminate; congruence.
  - repeat split; try reflexivity; try congruence.
  - assert (category <> "").
    { intro E. rewrite E in Hin. simpl in Hin.
      repeat (destruct Hin as [Hin|Hin]; [discriminate Hin|]). exact Hin. }
    repeat split; try reflexivity; try congruence.
  - assert (category <> "").
    { intro E. rewrite E in Hin. simpl in Hin.
      repeat (destruct Hin as [Hin|Hin]; [discriminate Hin|]). exact Hin. }
    repeat split; try reflexivity; try congruence.
Qed.

Lemma stored_category_not_blank_witness : final_category "Other" "" <> "".
Proof. apply (stored_category_not_blank "Other" ""). do 5 right. left. reflexivity. Defined.

(** ** Editing a record *)

Lemma replace_at (i p : Z) (before after : list Raw.row) (r r' : Raw.row) :
  relabel i (before ++ r :: after) = before ++ r :: after ->
  p = i + Z.of_nat (List.length before) ->
  map (fun x => if Raw.label x =? p then r' else x) (before ++ r :: after)
  = before ++ r' :: after.
Proof.
  intros Hrange Hp.
  assert (Hlabel : forall k x, nth_error (before ++ r :: after) k = Some x ->
                               Raw.label x = i + Z.of_nat k).
  { intros k x. now apply range_index_label. }
  rewrite map_app. simpl. f_equal; [|f_equal].
  - rewrite <- (map_id before) at 2. apply map_ext_in. intros x Hx.
    apply In_nth_error in Hx as [k Hk].
    assert (Hlt : (k < List.length before)%nat).
    { apply nth_error_Some. congruence. }
    rewrite (Hlabel k x) by (rewrite nth_error_app1; assumption).
    destruct (i + Z.of_nat k =? p) eqn:E; [|reflexivity].
    apply Z.eqb_eq in E. lia.
  - rewrite (Hlabel (List.length before) r).
    + rewrite <- Hp. now rewrite Z.eqb_refl.
    + rewrite nth_error_app2 by lia. now rewrite Nat.sub_diag.
  - rewrite <- (map_id after) at 2. apply map_ext_in. intros x Hx.
    apply In_nth_error in Hx as [k Hk].
    rewrite (Hlabel (List.length before + S k)%nat x).
    + destruct (i + Z.of_nat (List.length before + S k) =? p) eqn:E; [|reflexivity].
      apply Z.eqb_eq in E. lia.
    + rewrite nth_error_app2 by lia.
      replace (List.length before + S k - List.length before)%nat with (S k) by lia.
      exact Hk.
Qed.

(** X4: on a store indexed 0, 1, 2, ..., "Update" in edit mode replaces
    exactly the record at the edited position by the values of the form
    (a date, any amount, a category and a description), keeps every
    other record and the length of the store, and leaves the edit mode;
    when the edited position is not in the store it raises [KeyError] and
    changes nothing. *)
Theorem update_expense_spec (date : pydate) (amount : Qc) (category desc : string)
        (s : session) (p : Z) :
  reset_index (data s) = data s ->
  edit_index s = Some p ->
  (0 <= p < Z.of_nat (List.length (data s)) ->
   exists before r after,
     data s = before ++ r :: after /\ Z.of_nat (List.length before) = p /\
     update_expense date amount category desc s
     = (mksession
          (before ++ Raw.mk p (Date date) (Num amount) (Str category) (Str desc) :: after)
          None,
        Ok tt)) /\
  (~ 0 <= p < Z.of_nat (List.length (data s)) ->
   update_expense date amount category desc s = (s, Raise KeyError)).
Proof.
  intros Hrange Hedit. unfold update_expense. rewrite Hedit.
  destruct (drop_position (data s) 0 p Hrange) as [Hin Hout]. split; intro Hp.
  - destruct Hin as (before & r & after & E & Hlen & Hex & _); [lia|].
    exists before, r, after. rewrite Hex. repeat split; [exact E | lia |].
    do 2 f_equal. unfold reset_index in Hrange. rewrite E in Hrange |- *.
    apply (replace_at 0); [exact Hrange | lia].
  - now rewrite (Hout ltac:(lia)).
Qed.

Lemma update_expense_spec_witness :
  update_expense (mkdate 2024 3 1) (qc 0 1) "Food" "tea" (mksession scenario (Some 5))
  = (mksession scenario (Some 5), Raise KeyError).
Proof.
  destruct (update_expense_spec (mkdate 2024 3 1) (qc 0 1) "Food" "tea"
                                (mksession scenario (Some 5)) 5 eq_refl eq_refl) as [_ H].
  apply H. simpl. lia.
Defined.

(** ** Deleting while a record is being edited *)

Lemma nth_error_remove {A} (before after : list A) (x : A) (i : nat) :
  nth_error (before ++ after) i
  = nth_error (before ++ x :: after) (if (i <? List.length before)%nat then i else S i).
Proof.
  destruct (i <? List.length before)%nat eqn:E.
  - apply Nat.ltb_lt in E. now rewrite !nth_error_app1.
  - apply Nat.ltb_ge in E. rewrite !nth_error_app2 by lia.
    now replace (S i - List.length before)%nat with (S (i - List.length before)) by lia.
Qed.

Lemma nth_error_replace {A} (before after : list A) (x y : A) (i : nat) :
  nth_error (before ++ y :: after) i
  = if (i =? List.length before)%nat then Some y else nth_error (before ++ x :: after) i.
Proof.
  destruct (i =? List.length before)%nat eqn:E.
  - apply Nat.eqb_eq in E. subst i. rewrite nth_error_app2 by lia.
    now rewrite Nat.sub_diag.
  - apply Nat.eqb_neq in E. destruct (Nat.lt_ge_cases i (List.length before)).
    + now rewrite !nth_error_app1.
    + rewrite !nth_error_app2 by lia.
      destruct (i - List.length before)%nat eqn:D; [lia | reflexivity].
Qed.

(** X5: deleting a record does not leave the edit mode nor move the
    edited position.  On a store indexed 0, 1, 2, ..., after the record at
    position [p] is put in edit mode and a record at a position [q] not
    after [p] is deleted, the edit form raises [KeyError] when [p] was the
    last position (the edited row is read with [data.loc]), and otherwise
    "Update" overwrites the record that stood at position [p + 1]: every
    other record, the one chosen for editing included when it is still
    there, is kept as the deletion left it. *)
Theorem update_after_delete (date : pydate) (amount : Qc) (category desc : string)
        (s : session) (p q : Z) :
  reset_index (data s) = data s ->
  0 <= q <= p -> p < Z.of_nat (List.length (data s)) ->
  let s2 := fst (delete_expense q (start_edit p s)) in
  edit_index s2 = Some p /\
  List.length (data s2) = pred (List.length (data s)) /\
  (p = Z.of_nat (List.length (data s)) - 1 ->
   update_expense date amount category desc s2 = (s2, Raise KeyError)) /\
  (p < Z.of_nat (List.length (data s)) - 1 ->
   snd (update_expense date amount category desc s2) = Ok tt /\
   forall i : nat,
     nth_error (data (fst (update_expense date amount category desc s2))) i
     = if Z.of_nat i =? p
       then Some (Raw.mk p (Date date) (Num amount) (Str category) (Str desc))
       else option_map (set_label (Z.of_nat i))
                       (nth_error (data s) (if Z.of_nat i <? q then i else S i))).
Proof.
  intros Hrange Hq Hp.
  destruct (drop_position (data s) 0 q Hrange) as [Hin _].
  destruct Hin as (B & rq & A & E & HlenB & Hex & Hfil); [lia|].
  assert (Hdel : delete_expense q (start_edit p s)
                 = (mksession (reset_index (B ++ A)) (Some p), Ok tt)).
  { unfold delete_expense, drop, start_edit. simpl. now rewrite Hex, Hfil. }
  rewrite Hdel. simpl.
  assert (Hlen : List.length (reset_index (B ++ A)) = pred (List.length (data s))).
  { unfold reset_index. rewrite length_relabel, E, !length_app. simpl. lia. }
  assert (Hrange2 : relabel 0 (reset_index (B ++ A)) = reset_index (B ++ A)).
  { unfold reset_index. apply relabel_relabel. }
  destruct (drop_position (reset_index (B ++ A)) 0 p Hrange2) as [Hin2 Hout2].
  split; [reflexivity|]. split; [exact Hlen|]. split.
  - intro Hlast. unfold update_expense. simpl.
    rewrite Hout2; [reflexivity|]. rewrite Hlen. lia.
  - intro Hmore.
    destruct Hin2 as (b & r & a & E2 & Hlenb & Hex2 & _); [rewrite Hlen; lia|].
    assert (Hupd : update_expense date amount category desc
                     (mksession (reset_index (B ++ A)) (Some p))
                   = (mksession
                        (b ++ Raw.mk p (Date date) (Num amount) (Str category) (Str desc) :: a)
                        None,
                      Ok tt)).
    { unfold update_expense. simpl. rewrite Hex2. do 2 f_equal.
      rewrite E2 in Hrange2 |- *. apply (replace_at 0); [exact Hrange2 | lia]. }
    rewrite Hupd. simpl. split; [reflexivity|]. intro i.
    rewrite (nth_error_replace b a r). rewrite <- E2.
    assert (Hi : (i =? List.length b)%nat = (Z.of_nat i =? p)).
    { destruct (Nat.eqb_spec i (List.length b)); destruct (Z.eqb_spec (Z.of_nat i) p);
        try reflexivity; lia. }
    rewrite Hi. destruct (Z.of_nat i =? p); [reflexivity|].
    unfold reset_index. rewrite nth_error_relabel. simpl. f_equal.
    rewrite E, (nth_error_remove B A rq).
    assert (Hiq : (i <? List.length B)%nat = (Z.of_nat i <? q)).
    { destruct (Nat.ltb_spec i (List.length B)); destruct (Z.ltb_spec (Z.of_nat i) q);
        try reflexivity; lia. }
    now rewrite Hiq.
Qed.

Lemma update_after_delete_witness :
  update_expense (mkdate 2024 3 1) (qc 7 1) "Food" "tea"
                 (fst (delete_expense 0 (start_edit 2 (mksession scenario None))))
  = (fst (delete_expense 0 (start_edit 2 (mksession scenario None))), Raise KeyError).
Proof.
  destruct (update_after_delete (mkdate 2024 3 1) (qc 7 1) "Food" "tea"
              (mksession scenario None) 2 0 eq_refl) as (_ & _ & H & _).
  - lia.
  - simpl. lia.
  - apply H. reflexivity.
Defined.

(** ** Importing a file *)

(** X6: an upload that [read_csv] accepts appends the rows read, in file
    order, after the records of the store, which it keeps in order; the
    edit mode is left as it is, nothing is merged or deduplicated (the
    same file uploaded again is appended again), and the store stays
    indexed 0, 1, 2, ... *)
Theorem import_csv_appends {conv : Conversions} (text : string) (s s' : session) :
  import_csv text s = Some s' ->
  exists df,
    read_csv text = Some df /\
    map fields (data s') = map fields (data s) ++ map fields df /\
    List.length (data s') = (List.length (data s) + List.length df)%nat /\
    edit_index s' = edit_index s /\
    reset_index (data s') = data s' /\
    (forall s'', import_csv text s' = Some s'' ->
                 map fields (data s'') = map fields (data s) ++ map fields df ++ map fields df).
Proof.
  unfold import_csv. intro H. destruct (read_csv text) as [df|]; [|discriminate H].
  injection H as <-. exists df. simpl. unfold concat_ignore_index, reset_index.
  repeat split.
  - now rewrite fields_relabel, map_app.
  - now rewrite length_relabel, length_app.
  - apply relabel_relabel.
  - intros s'' H. injection H as <-. simpl.
    now rewrite !fields_relabel, !map_app, fields_relabel, map_app, <- app_assoc.
Qed.

Lemma import_csv_appends_witness :
  exists df,
    read_csv (conv := Reference.plain) (to_csv (conv := Reference.plain) two_expenses)
    = Some df /\
    List.length
      (concat_ignore_index scenario
         (reset_index (map (date_as_text (conv := Reference.plain)) two_expenses)))
    = (List.length scenario + List.length df)%nat.
Proof.
  destruct (import_csv_appends (conv := Reference.plain)
              (to_csv (conv := Reference.plain) two_expenses)
              (mksession scenario None)
              (mksession
                 (concat_ignore_index scenario
                    (reset_index (map (date_as_text (conv := Reference.plain)) two_expenses)))
                 None)
              eq_refl) as (df & Hread & _ & Hlen & _).
  exists df. split; [exact Hread | exact Hlen].
Defined.

(** ** Cleaning, record by record *)

Section CleaningByRecord.
Context {conv : Conversions}.
Context {R : Type} {cols : Columns R}.

Lemma normalized_from_functional (r : R) (c c' : Clean.row) :
  normalized_from r c -> normalized_from r c' -> c = c'.
Proof.
  intros (Hl & Hc & He & Ha & Hd & Hm) (Hl' & Hc' & He' & Ha' & Hd' & Hm').
  destruct c as [l d a cat e m], c' as [l' d' a' cat' e' m']. simpl in *.
  rewrite Ha in Ha'. rewrite Hd in Hd'.
  injection Ha' as ->. injection Hd' as ->. congruence.
Qed.

Lemma Forall2_functional {A B} (P : A -> B -> Prop) (l : list A) (m m' : list B) :
  (forall a b b', P a b -> P a b' -> b = b') ->
  Forall2 P l m -> Forall2 P l m' -> m = m'.
Proof.
  intros Hfun H. revert m'. induction H as [|a b l m Hab _ IH]; intros m' H'.
  - now inversion H'.
  - inversion H' as [|? b' ? m'' Hab' Hm']; subst. f_equal; eauto.
Qed.

(** [clean] returns [out] exactly when [out] is, row by row, the
    normalization of the rows without a missing cell. *)
Lemma clean_Ok_iff (df : list R) (out : list Clean.row) :
  clean df = Ok out <-> Forall2 normalized_from (dropna df) out.
Proof.
  split; [apply clean_Ok|]. intro H.
  destruct (clean_total df) as [out' Hout'].
  { clear -H. induction H as [|r c l l' (_ & _ & _ & Ha & Hd & _) _ IH]; constructor.
    - split; eauto.
    - exact IH. }
  rewrite Hout'. f_equal.
  eapply Forall2_functional; [apply normalized_from_functional | | exact H].
  now apply clean_Ok.
Qed.

Lemma clean_app (a b : list R) (out : list Clean.row) :
  clean (a ++ b) = Ok out <->
  exists oa ob, clean a = Ok oa /\ clean b = Ok ob /\ out = oa ++ ob.
Proof.
  rewrite clean_Ok_iff, dropna_app. split.
  - intro H. apply Forall2_app_inv_l in H as (oa & ob & Ha & Hb & ->).
    exists oa, ob. repeat split; now apply clean_Ok_iff.
  - intros (oa & ob & Ha & Hb & ->).
    apply Forall2_app; now apply clean_Ok_iff.
Qed.

End CleaningByRecord.

Lemma amount_sum_app (a b : list Clean.row) :
  amount_sum (a ++ b) = (amount_sum a + amount_sum b)%Qc.
Proof. unfold amount_sum. now rewrite map_app, series_sum_app. Qed.

(** ** The dashboard and the index labels *)

Lemma fields_columns (r1 r2 : Raw.row) :
  fields r1 = fields r2 ->
  Raw.date r1 = Raw.date r2 /\ Raw.amount r1 = Raw.amount r2 /\
  Raw.category r1 = Raw.category r2 /\ Raw.description r1 = Raw.description r2.
Proof. unfold fields. intro H. injection H as -> -> -> ->. auto. Qed.

Lemma map_fields_Forall2 (df1 df2 : list Raw.row) :
  map fields df1 = map fields df2 ->
  Forall2 (fun r1 r2 => fields r1 = fields r2) df1 df2.
Proof.
  revert df2. induction df1 as [|r df1 IH]; intros [|r2 df2] H; try discriminate H.
  - constructor.
  - simpl in H. injection H. intros. constructor.
    + unfold fields. congruence.
    + now apply IH.
Qed.

Lemma dropna_same_fields (df1 df2 : list Raw.row) :
  Forall2 (fun r1 r2 => fields r1 = fields r2) df1 df2 ->
  Forall2 (fun r1 r2 => fields r1 = fields r2) (dropna df1) (dropna df2).
Proof.
  induction 1 as [|r1 r2 df1 df2 Hr _ IH]; [constructor|].
  unfold dropna in *. simpl.
  assert (E : row_isna r1 = row_isna r2).
  { unfold row_isna. simpl. destruct (fields_columns r1 r2 Hr) as (-> & -> & -> & ->).
    reflexivity. }
  rewrite E. destruct (row_isna r2); simpl; [exact IH | now constructor].
Qed.

Section SameFields.
Context {conv : Conversions}.

Lemma normalized_same_fields (r1 r2 : Raw.row) (c1 : Clean.row) :
  fields r1 = fields r2 -> normalized_from r1 c1 ->
  exists c2, normalized_from r2 c2 /\ same_cleaned c1 c2.
Proof.
  intros Hr (Hl & Hc & He & Ha & Hd & Hm).
  destruct (fields_columns r1 r2 Hr) as (Ed & Ea & Ec & Ee). simpl in *.
  exists (Clean.mk (Raw.label r2) (Clean.date c1) (Clean.amount c1) (Clean.category c1)
                   (Clean.description c1) (Clean.month c1)).
  split; [|reflexivity]. unfold normalized_from. simpl.
  repeat split; congruence.
Qed.

Lemma clean_same_fields (df1 df2 : list Raw.row) (o1 : list Clean.row) :
  map fields df1 = map fields df2 -> clean df1 = Ok o1 ->
  exists o2, clean df2 = Ok o2 /\ Forall2 same_cleaned o1 o2.
Proof.
  intros Hf H1. apply clean_Ok_iff in H1.
  pose proof (dropna_same_fields _ _ (map_fields_Forall2 _ _ Hf)) as Hk.
  remember (dropna df1) as k1 eqn:E1. remember (dropna df2) as k2 eqn:E2.
  assert (H : exists o2, Forall2 normalized_from k2 o2 /\ Forall2 same_cleaned o1 o2).
  { clear E1 E2 Hf. revert o1 H1.
    induction Hk as [|r1 r2 k1 k2 Hr _ IH]; intros o1 H1.
    - inversion H1; subst. exists []. split; constructor.
    - inversion H1 as [|? c1 ? o1' Hc1 Ho1']; subst.
      destruct (IH _ Ho1') as (o2 & Ho2 & Hs).
      destruct (normalized_same_fields r1 r2 c1 Hr Hc1) as (c2 & Hc2 & Hs2).
      exists (c2 :: o2). split; constructor; assumption. }
  destruct H as (o2 & Ho2 & Hs). exists o2. split; [|exact Hs].
  apply clean_Ok_iff. now rewrite <- E2.
Qed.

Lemma clean_same_fields_Raise (df1 df2 : list Raw.row) (e : exn) :
  map fields df1 = map fields df2 -> clean df1 = Raise e -> clean df2 = Raise e.
Proof.
  intros Hf. unfold clean.
  pose proof (dropna_same_fields _ _ (map_fields_Forall2 _ _ Hf)) as Hk.
  assert (Ea : map col_amount (dropna df1) = map col_amount (dropna df2)).
  { induction Hk as [|r1 r2 k1 k2 Hr _ IH]; [reflexivity|]. cbn [map].
    f_equal; [|exact IH]. apply fields_columns in Hr. apply Hr. }
  assert (Ed : map col_date (dropna df1) = map col_date (dropna df2)).
  { clear Ea. induction Hk as [|r1 r2 k1 k2 Hr _ IH]; [reflexivity|]. cbn [map].
    f_equal; [|exact IH]. apply fields_columns in Hr. apply Hr. }
  rewrite Ea, Ed.
  destruct (traverse astype_float _) as [amounts|e1]; simpl; [|trivial].
  destruct (traverse to_datetime _) as [dates|e2]; simpl; [|trivial].
  intro H. discriminate H.
Qed.

End SameFields.

Section TotalsByFields.
Context {K : Type}.
Variable eq_dec : forall a b : K, {a = b} + {a <> b}.
Variable leb : K -> K -> bool.
Variable key : Clean.row -> option K.

Lemma present_keys_ext (o1 o2 : list Clean.row) :
  map key o1 = map key o2 -> present_keys key o1 = present_keys key o2.
Proof.
  revert o2. induction o1 as [|c1 o1 IH]; intros [|c2 o2] H; try discriminate H.
  - reflexivity.
  - simpl in H. injection H as Hk H. unfold present_keys in *. simpl.
    now rewrite Hk, (IH o2 H).
Qed.

Lemma group_sum_ext (k : K) (o1 o2 : list Clean.row) :
  map key o1 = map key o2 -> map Clean.amount o1 = map Clean.amount o2 ->
  amount_sum (filter (has_key eq_dec key k) o1)
  = amount_sum (filter (has_key eq_dec key k) o2).
Proof.
  revert o2. induction o1 as [|c1 o1 IH]; intros [|c2 o2] Hk Ha; try discriminate Hk.
  - reflexivity.
  - simpl in Hk, Ha. injection Hk as Hk Hk'. injection Ha as Ha Ha'.
    specialize (IH o2 Hk' Ha').
    assert (Hh : has_key eq_dec key k c1 = has_key eq_dec key k c2)
      by (unfold has_key; now rewrite Hk).
    simpl. rewrite Hh. destruct (has_key eq_dec key k c2); [|exact IH].
    change (amount_sum (c1 :: filter (has_key eq_dec key k) o1))
      with (Clean.amount c1 + amount_sum (filter (has_key eq_dec key k) o1))%Qc.
    now rewrite IH, Ha.
Qed.

Lemma totals_groupby_ext (o1 o2 : list Clean.row) :
  map key o1 = map key o2 -> map Clean.amount o1 = map Clean.amount o2 ->
  totals (groupby eq_dec leb key o1) = totals (groupby eq_dec leb key o2).
Proof.
  intros Hk Ha. unfold totals, groupby. rewrite !map_map. simpl.
  rewrite (present_keys_ext o1 o2 Hk). apply map_ext. intro k.
  now rewrite (group_sum_ext k o1 o2 Hk Ha).
Qed.

End TotalsByFields.

Lemma same_cleaned_columns (o1 o2 : list Clean.row) :
  Forall2 same_cleaned o1 o2 ->
  map Clean.amount o1 = map Clean.amount o2 /\
  map Clean.category o1 = map Clean.category o2 /\
  map category_key o1 = map category_key o2 /\
  map Clean.month o1 = map Clean.month o2 /\
  List.length o1 = List.length o2.
Proof.
  induction 1 as [|c1 c2 o1 o2 Hc _ (Ha & Hcat & Hk & Hm & Hl)].
  - repeat split.
  - unfold same_cleaned, cleaned_fields in Hc. injection Hc as Ed Eam Ec Ee Em.
    assert (Ek : category_key c1 = category_key c2)
      by (unfold category_key; now rewrite Ec).
    cbn [map List.length]. now rewrite Ha, Hcat, Hk, Hm, Hl, Eam, Ec, Em, Ek.
Qed.

Lemma overspend_alerts_totals {conv : Conversions}
      (g1 g2 : list (value * list Clean.row)) (limit : Qc) :
  totals g1 = totals g2 -> overspend_alerts g1 limit = overspend_alerts g2 limit.
Proof.
  revert g2. induction g1 as [|[c1 r1] g1 IH]; intros [|[c2 r2] g2] H; try discriminate H.
  - reflexivity.
  - unfold totals in H. simpl in H. injection H as Hc Hs H.
    simpl. rewrite Hc, Hs, (IH g2 H). reflexivity.
Qed.

Lemma dashboard_fields_ext {conv : Conversions} (df1 df2 : list Raw.row) :
  map fields df1 = map fields df2 -> dashboard df1 = dashboard df2.
Proof.
  intro Hf. unfold dashboard. destruct (clean df1) as [o1|e] eqn:E1.
  - destruct (clean_same_fields df1 df2 o1 Hf E1) as (o2 & E2 & Hs). rewrite E2.
    destruct (same_cleaned_columns o1 o2 Hs) as (Ha & _ & Hk & Hm & _).
    simpl. unfold analyze, detect_overspend_default, detect_overspend.
    assert (Et : amount_sum o1 = amount_sum o2) by (unfold amount_sum; now rewrite Ha).
    assert (Ec : totals (by_category o1) = totals (by_category o2))
      by (apply totals_groupby_ext; assumption).
    assert (Ep : totals (by_period o1) = totals (by_period o2))
      by (apply totals_groupby_ext; assumption).
    now rewrite Et, Ec, Ep, (overspend_alerts_totals _ _ _ Ec).
  - now rewrite (clean_same_fields_Raise df1 df2 e Hf E1).
Qed.

(** X7: the Dashboard figures are a function of the records of the
    store in their order: two stores with the same records, whatever
    their index labels, give the same insights or the same error. *)
Theorem dashboard_same_fields {conv : Conversions} (df1 df2 : list Raw.row) :
  map fields df1 = map fields df2 -> dashboard df1 = dashboard df2.
Proof. apply dashboard_fields_ext. Qed.

Lemma dashboard_same_fields_witness :
  dashboard (conv := Reference.plain) (relabel 10 scenario)
  = dashboard (conv := Reference.plain) scenario.
Proof.
  apply (dashboard_same_fields (conv := Reference.plain)). reflexivity.
Defined.

(** ** Manual entries through the pipeline *)

Lemma dashboard_Ok_iff {conv : Conversions} (df : list Raw.row) (v : insights) :
  dashboard df = Ok v <->
  exists out, clean df = Ok out /\
              v = mkinsights (amount_sum out) (totals (by_category out))
                             (totals (by_period out)) (detect_overspend_default out)
                             (recommend (amount_sum out)).
Proof.
  unfold dashboard. destruct (clean df) as [out|e]; simpl; split.
  - intro H. injection H as <-. eauto.
  - intros (out' & E & ->). injection E as <-. reflexivity.
  - intro H. discriminate H.
  - intros (out' & E & _). discriminate E.
Qed.

Lemma manual_normalized {conv : Conversions} (r : Raw.row) (d : pydate) (a : Qc)
      (cat e : string) :
  fields r = (Date d, Num a, Str cat, Str e) -> valid_timestamp (mkts d 0) = true ->
  row_isna r = false /\
  normalized_from r (Clean.mk (Raw.label r) (Some (mkts d 0)) a (Str cat) (Str e)
                              (Some (YYYY_MM (year d) (mon d)))).
Proof.
  intros Hf Hv. unfold fields in Hf. injection Hf as Ed Ea Ec Ee.
  split.
  - unfold row_isna. simpl. now rewrite Ed, Ea, Ec, Ee.
  - destruct (valid_timestamp_bounds _ Hv) as [Hy _].
    unfold normalized_from.
    cbn [Clean.label Clean.date Clean.amount Clean.category Clean.description
         Clean.month option_map col_label col_date col_amount col_category
         col_description Raw_columns].
    rewrite Ed, Ea, Ec, Ee. cbn [astype_float to_datetime].
    unfold check_timestamp. rewrite Hv.
    rewrite strftime_year_month by (cbn [ts_date] in *; lia).
    repeat split.
Qed.

(** X8: a store that holds only records entered through the form, with
    dates in the range of pandas timestamps, is cleaned without error and
    without loss: every record comes out, in order and under its label,
    with its date at midnight, its amount, its category, its description
    and the month [YYYY-MM] of its date. *)
Theorem manual_store_cleans {conv : Conversions} (df : list Raw.row) :
  Forall manual df ->
  exists out,
    clean df = Ok out /\
    Forall2 (fun r c =>
               Clean.label c = Raw.label r /\
               exists d a cat e,
                 fields r = (Date d, Num a, Str cat, Str e) /\
                 cleaned_fields c
                 = (Some (mkts d 0), a, Str cat, Str e, Some (YYYY_MM (year d) (mon d))))
            df out.
Proof.
  intro H.
  assert (Hkept : dropna df = df).
  { induction H as [|r df (d & a & cat & e & Hf & Hv) _ IH]; [reflexivity|].
    unfold dropna in *. simpl.
    destruct (manual_normalized r d a cat e Hf Hv) as [-> _]. simpl. now rewrite IH. }
  assert (Hout : exists out,
             Forall2 normalized_from df out /\
             Forall2 (fun r c =>
               Clean.label c = Raw.label r /\
               exists d a cat e,
                 fields r = (Date d, Num a, Str cat, Str e) /\
                 cleaned_fields c
                 = (Some (mkts d 0), a, Str cat, Str e, Some (YYYY_MM (year d) (mon d))))
               df out).
  { clear Hkept. induction H as [|r df (d & a & cat & e & Hf & Hv) _ (out & Hn & Hp)].
    - exists []. split; constructor.
    - destruct (manual_normalized r d a cat e Hf Hv) as [_ Hr].
      eexists (_ :: out). split; constructor; try eassumption.
      split; [reflexivity|]. exists d, a, cat, e. split; [exact Hf | reflexivity]. }
  destruct Hout as (out & Hn & Hp). exists out. split; [|exact Hp].
  apply clean_Ok_iff. now rewrite Hkept.
Qed.

Lemma manual_store_cleans_witness :
  exists out, clean (conv := Reference.plain) scenario = Ok out /\
              List.length out = 3%nat.
Proof.
  destruct (manual_store_cleans (conv := Reference.plain) scenario) as (out & Hc & Hp).
  - repeat constructor; do 4 eexists; split; reflexivity.
  - exists out. split; [exact Hc|].
    apply Forall2_length in Hp. simpl in Hp. now rewrite <- Hp.
Defined.

(** X9: when the Dashboard shows a total for the store, adding an expense
    with a positive amount and a date in the range of pandas timestamps
    gives a Dashboard whose total is the former total plus that amount. *)
Theorem add_expense_raises_total {conv : Conversions}
        (date : pydate) (amount : Qc) (category custom desc : string)
        (s : session) (v : insights) :
  dashboard (data s) = Ok v ->
  (Q2Qc 0 < amount)%Qc ->
  valid_timestamp (mkts date 0) = true ->
  exists v',
    dashboard (data (add_expense date amount category custom desc s)) = Ok v' /\
    total v' = (total v + amount)%Qc.
Proof.
  intros Hv Hpos Hdate.
  apply dashboard_Ok_iff in Hv as (out & Hout & ->).
  set (r := collect_manual date amount (final_category category custom) desc).
  assert (Hdata : data (add_expense date amount category custom desc s)
                  = reset_index (data s ++ [r])).
  { unfold add_expense. apply Qcltb_lt in Hpos. now rewrite Hpos. }
  rewrite Hdata.
  rewrite (dashboard_fields_ext (reset_index (data s ++ [r])) (data s ++ [r]))
    by apply fields_relabel.
  destruct (manual_normalized r date amount (final_category category custom) desc
                              eq_refl Hdate) as [Hna Hr].
  assert (Hone : clean [r]
                 = Ok [Clean.mk (Raw.label r) (Some (mkts date 0)) amount
                                (Str (final_category category custom)) (Str desc)
                                (Some (YYYY_MM (year date) (mon date)))]).
  { apply clean_Ok_iff. unfold dropna. cbn [filter]. rewrite Hna. cbn [negb].
    constructor; [exact Hr | constructor]. }
  assert (Hall : clean (data s ++ [r]) = Ok (out ++ [Clean.mk (Raw.label r)
                   (Some (mkts date 0)) amount (Str (final_category category custom))
                   (Str desc) (Some (YYYY_MM (year date) (mon date)))])).
  { apply clean_app. eauto. }
  eexists. split.
  - apply dashboard_Ok_iff. eexists. split; [exact Hall | reflexivity].
  - simpl. rewrite amount_sum_app. unfold amount_sum at 2. simpl. ring.
Qed.

Lemma add_expense_raises_total_witness :
  exists v',
    dashboard (conv := Reference.plain)
              (data (add_expense (mkdate 2024 3 1) (qc 12 1) "Food" "" "tea"
                                 (mksession scenario None))) = Ok v' /\
    total v' = (qc 350 1 + qc 12 1)%Qc.
Proof.
  apply (add_expense_raises_total (conv := Reference.plain) (mkdate 2024 3 1) (qc 12 1)
           "Food" "" "tea" (mksession scenario None)
           (mkinsights (qc 350 1)
              [(Str "Food", qc 150 1); (Str "Travel", qc 200 1)]
              [("2024-01", qc 150 1); ("2024-02", qc 200 1)]
              [] favorable_advisory)); reflexivity.
Defined.

(** ** Deleting and the dashboard *)

Lemma app_same_length {A} (a a' b b' : list A) :
  List.length a = List.length a' -> a ++ b = a' ++ b' -> a = a' /\ b = b'.
Proof.
  revert a'. induction a as [|x a IH]; intros [|x' a'] Hl H; try discriminate Hl.
  - now split.
  - simpl in *. injection H as -> H. injection Hl as Hl.
    destruct (IH a' Hl H) as [-> ->]. now split.
Qed.

Lemma delete_at (s : session) (before after : list Raw.row) (r : Raw.row) :
  reset_index (data s) = data s -> data s = before ++ r :: after ->
  delete_expense (Z.of_nat (List.length before)) s
  = (mksession (reset_index (before ++ after)) (edit_index s), Ok tt).
Proof.
  intros Hrange E.
  destruct (drop_position (data s) 0 (Z.of_nat (List.length before)) Hrange) as [Hin _].
  destruct Hin as (b & r' & a & E' & Hlen & Hex & Hfil).
  { rewrite E, length_app. simpl. lia. }
  rewrite E in E'. apply app_same_length in E' as [-> E']; [|lia].
  injection E' as -> ->.
  unfold delete_expense, drop. now rewrite Hex, Hfil.
Qed.

(** X10: on a store indexed 0, 1, 2, ..., deleting a record that has a
    missing field leaves the Dashboard as it was.  When the date of every
    record without a missing field is a date object, as the forms store
    it, and the Dashboard showed a total, deleting a record without a
    missing field lowers that total by the amount of the record. *)
Theorem delete_expense_dashboard {conv : Conversions}
        (s : session) (before after : list Raw.row) (r : Raw.row) :
  reset_index (data s) = data s ->
  data s = before ++ r :: after ->
  (incomplete r ->
   dashboard (data (fst (delete_expense (Z.of_nat (List.length before)) s)))
   = dashboard (data s)) /\
  (~ incomplete r ->
   Forall (fun x => ~ incomplete x -> exists d, Raw.date x = Date d) (data s) ->
   forall v, dashboard (data s) = Ok v ->
   exists v' a,
     dashboard (data (fst (delete_expense (Z.of_nat (List.length before)) s))) = Ok v' /\
     amount_value (Raw.amount r) a /\
     total v = (total v' + a)%Qc).
Proof.
  intros Hrange E. rewrite (delete_at s before after r Hrange E). simpl.
  rewrite (dashboard_fields_ext (reset_index (before ++ after)) (before ++ after))
    by apply fields_relabel.
  rewrite E. split.
  - intro Hna. apply incomplete_iff in Hna. unfold dashboard, clean.
    now rewrite (row_isna_dropped before after r Hna).
  - intros Hna _ v Hv. apply complete_iff in Hna.
    apply dashboard_Ok_iff in Hv as (out & Hout & ->).
    apply clean_app in Hout as (oB & o2 & HB & H2 & ->).
    change (r :: after) with ([r] ++ after) in H2.
    apply clean_app in H2 as (o1 & oA & H1 & HA & ->).
    apply clean_Ok_iff in H1. unfold dropna in H1. cbn [filter] in H1.
    rewrite Hna in H1. cbn [negb] in H1.
    inversion H1 as [|? c ? l' Hc Hl']; subst. inversion Hl'; subst.
    destruct Hc as (_ & _ & _ & Ha & _).
    exists (mkinsights (amount_sum (oB ++ oA)) (totals (by_category (oB ++ oA)))
                       (totals (by_period (oB ++ oA)))
                       (detect_overspend_default (oB ++ oA))
                       (recommend (amount_sum (oB ++ oA)))),
           (Clean.amount c).
    split; [|split].
    + apply dashboard_Ok_iff. exists (oB ++ oA). split; [|reflexivity].
      apply clean_app. eauto.
    + now apply astype_float_value.
    + simpl. rewrite !amount_sum_app. unfold amount_sum at 2. simpl.
      fold (amount_sum oA). ring.
Qed.

Lemma delete_expense_dashboard_witness :
  dashboard (conv := Reference.plain)
            (data (fst (delete_expense 3 (mksession (scenario ++ [absent_description]) None))))
  = dashboard (conv := Reference.plain) (scenario ++ [absent_description]) /\
  exists v' a,
    dashboard (conv := Reference.plain)
              (data (fst (delete_expense 1 (mksession scenario None)))) = Ok v' /\
    amount_value (conv := Reference.plain) (Num (qc 50 1)) a /\
    qc 350 1 = (total v' + a)%Qc.
Proof.
  destruct (delete_expense_dashboard (conv := Reference.plain)
              (mksession (scenario ++ [absent_description]) None)
              scenario [] absent_description eq_refl eq_refl) as [H _].
  destruct (delete_expense_dashboard (conv := Reference.plain)
              (mksession scenario None)
              [Raw.mk 0 (Date (mkdate 2024 1 5)) (Num (qc 100 1)) (Str "Food") (Str "lunch")]
              [Raw.mk 2 (Date (mkdate 2024 2 1)) (Num (qc 200 1)) (Str "Travel") (Str "")]
              (Raw.mk 1 (Date (mkdate 2024 1 20)) (Num (qc 50 1)) (Str "Food") (Str "snack"))
              eq_refl eq_refl) as [_ H'].
  split.
  - apply H. right; right; right. reflexivity.
  - apply (fun Hc Hd => H' Hc Hd
                    (mkinsights (qc 350 1)
                       [(Str "Food", qc 150 1); (Str "Travel", qc 200 1)]
                       [("2024-01", qc 150 1); ("2024-02", qc 200 1)]
                       [] favorable_advisory)).
    + intros [H0|[H0|[H0|H0]]]; discriminate H0.
    + repeat constructor; intros _; eexists; reflexivity.
    + reflexivity.
Defined.

(** ** A store of incomplete records *)

Lemma dropna_nil_iff {conv : Conversions} (df : list Raw.row) :
  dropna df = [] <-> Forall (fun r => row_isna r = true) df.
Proof.
  unfold dropna. induction df as [|r df IH]; simpl.
  - split; [constructor | reflexivity].
  - destruct (row_isna r) eqn:E; simpl; split; intro H.
    + constructor; [exact E | now apply IH].
    + apply IH. now inversion H.
    + discriminate H.
    + inversion H; congruence.
Qed.

Lemma clean_nil_iff {conv : Conversions} (df : list Raw.row) :
  clean df = Ok [] <-> Forall (fun r => row_isna r = true) df.
Proof.
  rewrite clean_Ok_iff, <- dropna_nil_iff. split; intro H.
  - now inversion H.
  - rewrite H. constructor.
Qed.

(** X11: when the store is not empty but every record has a missing
    field, the Dashboard is shown, not the "no data" message, and it
    counts no entry and no category, shows the total 0, no subtotal and no
    alert, and prints the advisory of a good savings pattern. *)
Theorem dashboard_of_incomplete_store {conv : Conversions} (s : session) :
  data s <> [] ->
  Forall (fun r => row_isna r = true) (data s) ->
  dashboard_page s
  = Some (Ok (mkview (mkinsights (Q2Qc 0) [] [] [] favorable_advisory) 0 0)).
Proof.
  intros Hne Hall. apply clean_nil_iff in Hall. unfold dashboard_page.
  destruct (data s) as [|r df] eqn:E; [contradiction|]. now rewrite Hall.
Qed.

Lemma dashboard_of_incomplete_store_witness :
  dashboard_page (conv := Reference.plain) (mksession [absent_description] None)
  = Some (Ok (mkview (mkinsights (Q2Qc 0) [] [] [] favorable_advisory) 0 0)).
Proof.
  apply (dashboard_of_incomplete_store (conv := Reference.plain)).
  - discriminate.
  - repeat constructor.
Defined.

(** ** The Reports page *)

Lemma clean_categories {conv : Conversions} (df : list Raw.row) (out : list Clean.row) :
  clean df = Ok out -> Forall (fun c => Clean.category c <> NA) out.
Proof.
  intro H. apply clean_Ok in H. pose proof (dropna_complete df) as Hna.
  remember (dropna df) as kept eqn:Ek. clear Ek. revert Hna.
  induction H as [|r c l l' (_ & Hc & _) _ IH]; intro Hna; constructor.
  - inversion Hna as [|? ? Hr _]; subst. unfold row_isna in Hr.
    repeat (apply orb_false_iff in Hr; destruct Hr as [Hr ?]).
    rewrite Hc. intro E. simpl in *. rewrite E in *. discriminate.
  - apply IH. now inversion Hna.
Qed.

Lemma by_category_nil (out : list Clean.row) :
  Forall (fun c => Clean.category c <> NA) out -> by_category out = [] -> out = [].
Proof.
  intros Hcat H. destruct out as [|c out]; [reflexivity|]. exfalso.
  inversion Hcat as [|? ? Hc _]; subst.
  assert (Hin : In (Clean.category c) (map fst (by_category (c :: out)))).
  { apply groupby_key_In. exists c. split; [now left|].
    unfold category_key. destruct (Clean.category c); congruence. }
  rewrite H in Hin. exact Hin.
Qed.

(** X12: with any sort by decreasing amount, the Reports page ends in the
    [IndexError] of [iloc[0]] exactly when the store is not empty and
    every record has a missing field. *)
Theorem reports_index_error {conv : Conversions}
        (sort_values : list (value * Qc) -> list (value * Qc)) (s : session) :
  descending sort_values ->
  (reports_page sort_values s = IndexError <->
   data s <> [] /\ Forall (fun r => row_isna r = true) (data s)).
Proof.
  intro Hsort. unfold reports_page. split.
  - intro H. destruct (data s) as [|r df] eqn:E; [discriminate H|].
    split; [discriminate|].
    destruct (clean (r :: df)) as [out|e] eqn:Hc; [|discriminate H].
    apply clean_nil_iff. rewrite Hc. f_equal.
    apply by_category_nil; [eapply clean_categories; exact Hc|].
    unfold analyze in H.
    destruct (sort_values (totals (by_category out))) as [|[c t] rest] eqn:Es;
      [|discriminate H].
    destruct (Hsort (totals (by_category out))) as [Hperm _].
    rewrite Es in Hperm. apply Permutation_nil in Hperm.
    unfold totals in Hperm. now apply map_eq_nil in Hperm.
  - intros [Hne Hall]. apply clean_nil_iff in Hall.
    destruct (data s) as [|r df] eqn:E; [contradiction|]. rewrite Hall.
    unfold analyze. simpl.
    destruct (Hsort []) as [Hperm _]. apply Permutation_sym, Permutation_nil in Hperm.
    now rewrite Hperm.
Qed.

Lemma insert_desc_perm (x : value * Qc) (l : list (value * Qc)) :
  Permutation (insert_desc x l) (x :: l).
Proof.
  induction l as [|y l IH]; simpl.
  - apply Permutation_refl.
  - destruct (Qcltb (snd y) (snd x)).
    + apply Permutation_refl.
    + eapply perm_trans; [apply perm_skip, IH | apply perm_swap].
Qed.

Lemma insert_desc_sorted (x : value * Qc) (l : list (value * Qc)) :
  StronglySorted (fun a b => (snd b <= snd a)%Qc) l ->
  StronglySorted (fun a b => (snd b <= snd a)%Qc) (insert_desc x l).
Proof.
  induction 1 as [|y l Hl IH Hy]; simpl.
  - repeat constructor.
  - destruct (Qcltb (snd y) (snd x)) eqn:E.
    + apply Qcltb_lt, Qclt_le_weak in E.
      constructor; [now constructor|]. constructor; [exact E|].
      eapply Forall_impl; [|exact Hy]. intros b Hb. simpl in Hb.
      eapply Qcle_trans; eassumption.
    + apply Qcltb_ge in E. constructor; [exact IH|].
      eapply Permutation_Forall; [apply Permutation_sym, insert_desc_perm|].
      constructor; assumption.
Qed.

Lemma sort_desc_descending : descending sort_desc.
Proof.
  intro l. unfold sort_desc. induction l as [|x l [Hp Hs]]; simpl.
  - split; constructor.
  - split.
    + eapply perm_trans; [apply insert_desc_perm | now apply perm_skip].
    + now apply insert_desc_sorted.
Qed.

Lemma reports_index_error_witness :
  reports_page (conv := Reference.plain) sort_desc (mksession [absent_description] None)
  = IndexError.
Proof.
  apply (reports_index_error (conv := Reference.plain) sort_desc
           (mksession [absent_description] None) sort_desc_descending).
  split; [discriminate | repeat constructor].
Defined.

(** X13: with any sort by decreasing amount, a report names as top
    category one of the category subtotals, and no category has a larger
    subtotal; its transaction count is the number of records without a
    missing field, and its breakdowns are the subtotals of [analyze]. *)
Theorem report_top_category {conv : Conversions}
        (sort_values : list (value * Qc) -> list (value * Qc))
        (s : session) (r : report) :
  descending sort_values ->
  reports_page sort_values s = Report r ->
  (exists t, In (top_category r, t) (category_breakdown r) /\
             forall c t', In (c, t') (category_breakdown r) -> (t' <= t)%Qc) /\
  total_transactions r = List.length (dropna (data s)) /\
  exists out, clean (data s) = Ok out /\
              analyze out = (total_spent r, category_breakdown r, monthly_breakdown r).
Proof.
  intros Hsort H. unfold reports_page in H.
  destruct (data s) as [|r0 df] eqn:E; [discriminate H|].
  destruct (clean (r0 :: df)) as [out|e] eqn:Hc; [|discriminate H].
  unfold analyze in H.
  destruct (sort_values (totals (by_category out))) as [|[c t] rest] eqn:Es;
    [discriminate H|].
  injection H as <-.
  cbn [top_category category_breakdown total_transactions total_spent monthly_breakdown].
  destruct (Hsort (totals (by_category out))) as [Hperm Hsorted].
  rewrite Es in Hperm, Hsorted. split; [|split].
  - exists t. split.
    + eapply Permutation_in; [exact Hperm | now left].
    + intros c' t' Hin.
      apply (Permutation_in _ (Permutation_sym Hperm)) in Hin.
      destruct Hin as [Hin|Hin].
      * injection Hin as _ <-. apply Qcle_refl.
      * inversion Hsorted as [|? ? _ Hall]; subst.
        eapply Forall_forall in Hall; [|exact Hin]. exact Hall.
  - apply clean_Ok, Forall2_length in Hc. now rewrite Hc.
  - exists out. split; reflexivity.
Qed.

Lemma report_top_category_witness :
  exists t, In (Str "Travel", t) [(Str "Food", qc 150 1); (Str "Travel", qc 200 1)] /\
            forall c t', In (c, t') [(Str "Food", qc 150 1); (Str "Travel", qc 200 1)] ->
                         (t' <= t)%Qc.
Proof.
  apply (report_top_category (conv := Reference.plain) sort_desc (mksession scenario None)
           (mkreport (qc 350 1) 3 (Str "Travel")
                     [(Str "Food", qc 150 1); (Str "Travel", qc 200 1)]
                     [("2024-01", qc 150 1); ("2024-02", qc 200 1)])
           sort_desc_descending).
  reflexivity.
Defined.

(** ** The counters of the Dashboard *)

Lemma present_category_keys (df : list Clean.row) :
  present_keys category_key df
  = filter (fun v => negb (isna v)) (map Clean.category df).
Proof.
  unfold present_keys. induction df as [|c df IH]; simpl; [reflexivity|].
  rewrite IH. unfold category_key. destruct (Clean.category c); reflexivity.
Qed.

Lemma nodup_length_le {A} (dec : forall a b : A, {a = b} + {a <> b}) (l : list A) :
  (List.length (nodup dec l) <= List.length l)%nat.
Proof.
  induction l as [|a l IH]; simpl; [lia|].
  destruct (in_dec dec a l); simpl; lia.
Qed.

Lemma filter_length_le {A} (f : A -> bool) (l : list A) :
  (List.length (filter f l) <= List.length l)%nat.
Proof.
  induction l as [|a l IH]; simpl; [lia|]. destruct (f a); simpl; lia.
Qed.

(** X14: when the Dashboard is shown without error, its "Entries"
    counter is the number of records without a missing field, its
    "Categories" counter is the number of category subtotals (the bars of
    the category chart), and there are never more categories than
    entries. *)
Theorem dashboard_counters {conv : Conversions} (s : session) (v : dashboard_view) :
  dashboard_page s = Some (Ok v) ->
  entries v = List.length (dropna (data s)) /\
  categories v = List.length (by_cat (shown v)) /\
  (categories v <= entries v)%nat.
Proof.
  unfold dashboard_page. intro H.
  assert (Hv : exists out, clean (data s) = Ok out /\
                 v = mkview (mkinsights (amount_sum out) (totals (by_category out))
                                        (totals (by_period out))
                                        (detect_overspend_default out)
                                        (recommend (amount_sum out)))
                            (List.length out) (nunique (map Clean.category out))).
  { destruct (data s) as [|r df]; [discriminate H|].
    destruct (clean (r :: df)) as [out|e]; simpl in H; [|discriminate H].
    injection H as <-. eauto. }
  clear H. destruct Hv as (out & Hc & ->).
  cbn [entries categories shown by_cat].
  assert (Hcat : nunique (map Clean.category out) = List.length (totals (by_category out))).
  { unfold nunique, totals, by_category. rewrite length_map.
    rewrite <- (length_map fst), groupby_keys, present_category_keys.
    symmetry. apply Permutation_length, sort_keys_perm. }
  split; [|split].
  - apply clean_Ok, Forall2_length in Hc. now rewrite Hc.
  - exact Hcat.
  - unfold nunique.
    eapply Nat.le_trans; [apply nodup_length_le|].
    eapply Nat.le_trans; [apply filter_length_le|]. now rewrite length_map.
Qed.

Lemma dashboard_counters_witness :
  3%nat = List.length (dropna scenario) /\
  2%nat = List.length [(Str "Food", qc 150 1); (Str "Travel", qc 200 1)] /\
  (2 <= 3)%nat.
Proof.
  apply (dashboard_counters (conv := Reference.plain) (mksession scenario None)
           (mkview (mkinsights (qc 350 1)
                      [(Str "Food", qc 150 1); (Str "Travel", qc 200 1)]
                      [("2024-01", qc 150 1); ("2024-02", qc 200 1)]
                      [] favorable_advisory) 3 2)).
  reflexivity.
Defined.

(** ** The subtotals, key by key *)

Lemma totals_In {K} (groups : list (K * list Clean.row)) (k : K) (x : Qc) :
  In (k, x) (totals groups) <-> exists g, In (k, g) groups /\ x = amount_sum g.
Proof.
  unfold totals. rewrite in_map_iff. split.
  - intros ([k' g] & E & Hin). simpl in E. injection E as -> <-. eauto.
  - intros (g & Hin & ->). exists (k, g). now split.
Qed.

Lemma totals_keys {K} (groups : list (K * list Clean.row)) :
  map fst (totals groups) = map fst groups.
Proof. unfold totals. rewrite map_map. reflexivity. Qed.

Lemma groupby_In {R K} (eq_dec : forall a b : K, {a = b} + {a <> b})
      (leb : K -> K -> bool) (key : R -> option K) (df : list R) (k : K) (g : list R) :
  In (k, g) (groupby eq_dec leb key df) <->
  (exists r, In r df /\ key r = Some k) /\ g = filter (has_key eq_dec key k) df.
Proof.
  split.
  - intro H. split; [|now apply groupby_group in H].
    apply (groupby_key_In eq_dec leb). apply in_map_iff. exists (k, g). now split.
  - intros [Hk ->]. apply (groupby_key_In eq_dec leb) in Hk.
    rewrite groupby_spec. apply in_map_iff in Hk as ([k' g'] & E & Hin).
    simpl in E. subst k'. apply in_map_iff. exists k. split; [reflexivity|].
    apply in_map_iff. exists (k, g'). now split.
Qed.

(** X15: [analyze] returns one category subtotal for each distinct
    category present in the frame, equal to the sum of the amounts of the
    rows of that category, and one period subtotal for each distinct
    month present, equal to the sum of the amounts of the rows of that
    month; rows with a missing category or month are in no subtotal. *)
Theorem subtotals_per_key (df : list Clean.row) :
  NoDup (map fst (snd (fst (analyze df)))) /\
  (forall c x, In (c, x) (snd (fst (analyze df))) <->
               c <> NA /\ In c (map Clean.category df) /\ x = category_total c df) /\
  NoDup (map fst (snd (analyze df))) /\
  (forall k x, In (k, x) (snd (analyze df)) <->
               In (Some k) (map Clean.month df) /\ x = period_total k df).
Proof.
  unfold analyze. cbn [fst snd]. rewrite !totals_keys.
  split; [apply groupby_NoDup|]. split; [|split; [apply groupby_NoDup|]].
  - intros c x. rewrite totals_In. unfold by_category. split.
    + intros (g & Hin & ->). apply groupby_In in Hin as [(r & Hr & Hk) ->].
      apply category_key_Some in Hk as [Hcat Hc].
      split; [exact Hc|]. split; [apply in_map_iff; eauto|].
      unfold category_total. now rewrite category_group.
    + intros (Hc & Hin & ->). apply in_map_iff in Hin as (r & Hcat & Hr).
      exists (filter (has_key value_eq_dec category_key c) df). split.
      * apply groupby_In. split; [|reflexivity]. exists r. split; [exact Hr|].
        now apply category_key_Some.
      * unfold category_total. now rewrite category_group.
  - intros k x. rewrite totals_In. unfold by_period. split.
    + intros (g & Hin & ->). apply groupby_In in Hin as [(r & Hr & Hk) ->].
      split; [apply in_map_iff; eauto | reflexivity].
    + intros (Hin & ->). apply in_map_iff in Hin as (r & Hm & Hr).
      exists (filter (has_key string_dec Clean.month k) df). split; [|reflexivity].
      apply groupby_In. split; [|reflexivity]. eauto.
Qed.

(** ** The order of the subtotals *)

Lemma String_leb_trans (a b c : string) :
  String.leb a b = true -> String.leb b c = true -> String.leb a c = true.
Proof.
  unfold String.leb. revert b c.
  induction a as [|x a IH]; intros [|y b] [|z c]; simpl; try congruence.
  unfold Ascii.compare.
  destruct (N.compare_spec (N_of_ascii x) (N_of_ascii y)) as [Exy|Lxy|Gxy];
    destruct (N.compare_spec (N_of_ascii y) (N_of_ascii z)) as [Eyz|Lyz|Gyz];
    destruct (N.compare_spec (N_of_ascii x) (N_of_ascii z)) as [Exz|Lxz|Gxz];
    try congruence; try (exfalso; lia); try (intros; reflexivity).
  apply IH.
Qed.

Lemma Qcleb_le (p q : Qc) : Qcleb p q = true <-> (p <= q)%Qc.
Proof. unfold Qcleb. rewrite negb_true_iff. apply Qcltb_ge. Qed.

Lemma value_leb_total (a b : value) : value_leb a b = true \/ value_leb b a = true.
Proof.
  destruct a as [|s|p|d|t], b as [|s'|q|d'|t']; simpl; auto.
  - apply String.leb_total.
  - rewrite !Qcleb_le. destruct (Qcltb q p) eqn:E.
    + right. apply Qcltb_lt in E. now apply Qclt_le_weak.
    + left. now apply Qcltb_ge in E.
Qed.

Lemma value_leb_trans (a b c : value) :
  value_leb a b = true -> value_leb b c = true -> value_leb a c = true.
Proof.
  destruct a as [|s|p|d|t], b as [|s'|q|d'|t'], c as [|s''|r|d''|t''];
    simpl; try congruence.
  - apply String_leb_trans.
  - rewrite !Qcleb_le. apply Qcle_trans.
Qed.

Section SortedKeys.
Context {K : Type}.
Variable leb : K -> K -> bool.
Hypothesis leb_total : forall a b, leb a b = true \/ leb b a = true.
Hypothesis leb_trans : forall a b c, leb a b = true -> leb b c = true -> leb a c = true.

Lemma insert_key_In (k x : K) (ks : list K) :
  In x (insert_key leb k ks) -> x = k \/ In x ks.
Proof.
  induction ks as [|y ks IH]; simpl.
  - intros [<-|[]]. now left.
  - destruct (leb k y); simpl.
    + intros [<-|H]; [now left | now right].
    + intros [<-|H]; [right; now left|].
      destruct (IH H) as [->|H']; [now left | right; now right].
Qed.

Lemma insert_key_sorted (k : K) (ks : list K) :
  StronglySorted (fun a b => leb a b = true) ks ->
  StronglySorted (fun a b => leb a b = true) (insert_key leb k ks).
Proof.
  induction 1 as [|x ks Hs IH Hx]; simpl.
  - repeat constructor.
  - destruct (leb k x) eqn:E.
    + constructor; [now constructor|]. constructor; [exact E|].
      eapply Forall_impl; [|exact Hx]. intros y Hy. simpl in Hy.
      now apply (leb_trans k x y).
    + constructor; [exact IH|].
      assert (Hxk : leb x k = true) by (destruct (leb_total k x); congruence).
      apply Forall_forall. intros y Hy. apply insert_key_In in Hy as [->|Hy].
      * exact Hxk.
      * eapply Forall_forall in Hx; [exact Hx | exact Hy].
Qed.

Lemma sort_keys_sorted (ks : list K) :
  StronglySorted (fun a b => leb a b = true) (sort_keys leb ks).
Proof.
  induction ks as [|k ks IH]; simpl; [constructor | now apply insert_key_sorted].
Qed.

End SortedKeys.

Lemma text_keys_sorted (ks : list value) :
  Forall (fun k => exists s, k = Str s) ks ->
  StronglySorted (fun a b => value_leb a b = true) ks ->
  exists names, ks = map Str names /\
                StronglySorted (fun a b => String.leb a b = true) names.
Proof.
  induction 1 as [|k ks [s ->] Hks IH]; intro Hs.
  - exists []. split; constructor.
  - apply StronglySorted_inv in Hs as [Hs Hk].
    destruct (IH Hs) as (names & -> & Hn).
    exists (s :: names). split; [reflexivity|].
    constructor; [exact Hn|].
    apply Forall_forall. intros n Hin.
    eapply Forall_forall in Hk; [|apply in_map; exact Hin]. exact Hk.
Qed.

(** X16: the month subtotals come in ascending order of their month
    text: each is followed only by months that are not smaller in
    code-point order.  When every category is text, the category
    subtotals come in ascending code-point order of the category names. *)
Theorem subtotals_sorted (df : list Clean.row) :
  StronglySorted (fun a b => String.leb a b = true) (map fst (snd (analyze df))) /\
  (text_categories df ->
   exists names,
     map fst (snd (fst (analyze df))) = map Str names /\
     StronglySorted (fun a b => String.leb a b = true) names).
Proof.
  unfold analyze. cbn [fst snd]. rewrite !totals_keys. split.
  - unfold by_period. rewrite groupby_keys.
    apply sort_keys_sorted; [apply String.leb_total | apply String_leb_trans].
  - intro Htext. apply text_keys_sorted.
    + apply Forall_forall. intros c Hc.
      apply groupby_key_In in Hc as (r & Hr & Hkey).
      apply category_key_Some in Hkey as [<- _].
      eapply Forall_forall in Htext; [|exact Hr]. exact Htext.
    + unfold by_category. rewrite groupby_keys.
      apply sort_keys_sorted; [apply value_leb_total | apply value_leb_trans].
Qed.

Lemma subtotals_sorted_witness :
  exists names,
    map fst (snd (fst (analyze scenario_cleaned))) = map Str names /\
    StronglySorted (fun a b => String.leb a b = true) names.
Proof.
  destruct (subtotals_sorted scenario_cleaned) as [_ H].
  apply H. repeat constructor; eexists; reflexivity.
Defined.

(** The keys that [value_leb] places between numbers and text do not
    occur: whatever the handlers of the page do, the category cells of
    the store are text, numbers or missing. *)
Lemma relabel_categories (P : value -> Prop) (i : Z) (df : list Raw.row) :
  Forall (fun r => P (Raw.category r)) df ->
  Forall (fun r => P (Raw.category r)) (relabel i df).
Proof.
  intro H. revert i. induction H as [|r df Hr _ IH]; intro i; simpl; constructor.
  - exact Hr.
  - apply IH.
Qed.

Lemma frame_of_columns_categories (P : value -> Prop) (i : Z) (ds ams cs es : list value) :
  Forall P cs ->
  Forall (fun r => P (Raw.category r)) (frame_of_columns i ds ams cs es).
Proof.
  intro H. revert i ds ams es.
  induction H as [|c cs Hc _ IH]; intros i [|d ds] [|a ams] [|e es]; simpl;
    try constructor; [exact Hc | apply IH].
Qed.

Lemma infer_column_text_or_number {conv : Conversions}
      (fs : list (option string)) (vs : list value) :
  infer_column fs = Some vs -> Forall text_or_number vs.
Proof.
  unfold infer_column. destruct (forallb is_number fs).
  - intro H. injection H as <-. apply Forall_map, Forall_forall. intros [f|] _; simpl.
    + now destruct (csv_number f).
    + exact I.
  - destruct (forallb is_bool fs); intro H; [discriminate H|].
    injection H as <-. apply Forall_map, Forall_forall. intros [f|] _; exact I.
Qed.

Lemma read_csv_categories {conv : Conversions} (text : string) (df : list Raw.row) :
  read_csv text = Some df -> Forall (fun r => text_or_number (Raw.category r)) df.
Proof.
  unfold read_csv. destruct (tokenize text) as [[|header rows]|]; try discriminate.
  destruct (list_eq_dec string_dec header csv_columns); [|discriminate].
  destruct (forallb _ rows); [|discriminate].
  destruct (infer_column (map (field_at 0) rows)) as [ds|]; [|discriminate].
  destruct (infer_column (map (field_at 1) rows)) as [ams|]; [|discriminate].
  destruct (infer_column (map (field_at 2) rows)) as [cs|] eqn:Ec; [|discriminate].
  destruct (infer_column (map (field_at 3) rows)) as [es|]; [|discriminate].
  intro H. injection H as <-. apply frame_of_columns_categories.
  eapply infer_column_text_or_number; exact Ec.
Qed.

Lemma reachable_categories {conv : Conversions} (s : session) :
  reachable s -> Forall (fun r => text_or_number (Raw.category r)) (data s).
Proof.
  induction 1 as [|s d a c cu de _ IH|s text s' _ IH Himp|s p _ IH
                  |s d a c de _ IH|s _ IH|s p _ IH].
  - constructor.
  - unfold add_expense. destruct (Qcltb _ a); [|exact IH].
    simpl. unfold concat_ignore_index, reset_index. apply relabel_categories.
    apply Forall_app. split; [exact IH|]. repeat constructor.
  - unfold import_csv in Himp. destruct (read_csv text) as [df|] eqn:E; [|discriminate Himp].
    injection Himp as <-. simpl.
    unfold concat_ignore_index, reset_index. apply relabel_categories.
    apply Forall_app. split; [exact IH | now apply read_csv_categories in E].
  - exact IH.
  - unfold update_expense. destruct (edit_index s) as [p|]; [|exact IH].
    destruct (existsb _ (data s)); [|exact IH].
    simpl. apply Forall_map. eapply Forall_impl; [|exact IH].
    intros r Hr. simpl. destruct (Raw.label r =? p); [exact I | exact Hr].
  - exact IH.
  - unfold delete_expense, drop. destruct (existsb _ (data s)); [|exact IH].
    simpl. unfold reset_index. apply relabel_categories.
    apply Forall_forall. intros r Hr. apply filter_In in Hr as [Hr _].
    eapply Forall_forall in IH; [exact IH | exact Hr].
Qed.

(** ** Alerts and the limit *)

Section LimitFacts.
Context {conv : Conversions}.

Lemma overspend_alerts_monotone (groups : list (value * list Clean.row)) (l1 l2 : Qc) :
  (l1 <= l2)%Qc ->
  incl (overspend_alerts groups l2) (overspend_alerts groups l1) /\
  (List.length (overspend_alerts groups l2) <= List.length (overspend_alerts groups l1)
   <= List.length groups)%nat.
Proof.
  intro Hle. induction groups as [|[c g] groups [IHi IHl]]; simpl.
  - split; [apply incl_refl | lia].
  - destruct (Qcltb l2 (amount_sum g)) eqn:E2.
    + assert (E1 : Qcltb l1 (amount_sum g) = true).
      { apply Qcltb_lt. apply Qcltb_lt in E2. eapply Qcle_lt_trans; eassumption. }
      rewrite E1. split; [|simpl; lia].
      intros a [<-|Ha]; [now left | right; now apply IHi].
    + destruct (Qcltb l1 (amount_sum g)); split; simpl; try lia.
      * intros a Ha. right. now apply IHi.
      * exact IHi.
Qed.

(** X17: raising the limit never adds an alert: every alert raised with
    a limit is also raised with any smaller limit, and there are never
    more alerts than categories. *)
Theorem overspend_monotone (df : list Clean.row) (l1 l2 : Qc) :
  (l1 <= l2)%Qc ->
  incl (detect_overspend df l2) (detect_overspend df l1) /\
  (List.length (detect_overspend df l2) <= List.length (detect_overspend df l1))%nat /\
  (List.length (detect_overspend df l1) <= List.length (snd (fst (analyze df))))%nat.
Proof.
  intro Hle. unfold detect_overspend, analyze, totals. cbn [fst snd].
  rewrite length_map.
  destruct (overspend_alerts_monotone (by_category df) l1 l2 Hle) as [Hi Hl].
  split; [exact Hi | lia].
Qed.

Lemma filter_sum_le (f : Clean.row -> bool) (df : list Clean.row) :
  Forall (fun c => (Q2Qc 0 <= Clean.amount c)%Qc) df ->
  (amount_sum (filter f df) <= amount_sum df)%Qc.
Proof.
  induction 1 as [|c df Hc _ IH]; simpl.
  - apply Qcle_refl.
  - change (amount_sum (c :: df)) with (Clean.amount c + amount_sum df)%Qc.
    destruct (f c).
    + change (amount_sum (c :: filter f df))
        with (Clean.amount c + amount_sum (filter f df))%Qc.
      apply Qcplus_le_compat; [apply Qcle_refl | exact IH].
    + rewrite <- (Qcplus_0_l (amount_sum (filter f df))).
      apply Qcplus_le_compat; assumption.
Qed.

(** X18: when no amount is negative and the total does not exceed the
    limit, no alert is raised; so a total of at most 3000 gives, with the
    default limit, no alert and the advisory of a good savings pattern. *)
Theorem no_alert_within_limit (df : list Clean.row) (limit : Qc) :
  Forall (fun c => (Q2Qc 0 <= Clean.amount c)%Qc) df ->
  (amount_sum df <= limit)%Qc ->
  detect_overspend df limit = [] /\
  ((limit <= qc 3000 1)%Qc ->
   detect_overspend_default df = [] /\ recommend (amount_sum df) = favorable_advisory).
Proof.
  intros Hpos Hle.
  assert (Hnone : forall l, (amount_sum df <= l)%Qc -> detect_overspend df l = []).
  { intros l Hl. unfold detect_overspend.
    assert (Hg : Forall (fun kg => (amount_sum (snd kg) <= l)%Qc) (by_category df)).
    { apply Forall_forall. intros [c g] Hin. apply groupby_group in Hin. subst g.
      simpl. eapply Qcle_trans; [apply filter_sum_le; exact Hpos | exact Hl]. }
    induction Hg as [|[c g] groups Hcg _ IH]; simpl; [reflexivity|].
    simpl in Hcg. apply Qcltb_ge in Hcg. now rewrite Hcg. }
  split; [now apply Hnone|]. intro H3000.
  assert (Ht : (amount_sum df <= qc 3000 1)%Qc) by (eapply Qcle_trans; eassumption).
  split.
  - apply Hnone. exact Ht.
  - unfold recommend.
    assert (H15 : Qcltb (Q2Qc 15000) (amount_sum df) = false).
    { apply Qcltb_ge. eapply Qcle_trans; [exact Ht | discriminate]. }
    assert (H8 : Qcltb (Q2Qc 8000) (amount_sum df) = false).
    { apply Qcltb_ge. eapply Qcle_trans; [exact Ht | discriminate]. }
    now rewrite H15, H8.
Qed.

End LimitFacts.

Lemma overspend_monotone_witness :
  incl (detect_overspend (conv := Reference.plain) scenario_cleaned (qc 3000 1))
       (detect_overspend (conv := Reference.plain) scenario_cleaned (qc 100 1)).
Proof.
  apply (overspend_monotone (conv := Reference.plain) scenario_cleaned (qc 100 1) (qc 3000 1)).
  discriminate.
Defined.

Lemma no_alert_within_limit_witness :
  detect_overspend (conv := Reference.plain) scenario_cleaned (qc 350 1) = [].
Proof.
  destruct (no_alert_within_limit (conv := Reference.plain) scenario_cleaned (qc 350 1))
    as [H _].
  - repeat constructor; discriminate.
  - discriminate.
  - exact H.
Defined.

(** ** Which error [clean] raises *)

Lemma traverse_first_error {A B} (f : A -> result B) (before after : list A) (a : A)
      (e : exn) :
  Forall (fun x => exists b, f x = Ok b) before -> f a = Raise e ->
  traverse f (before ++ a :: after) = Raise e.
Proof.
  intros Hb Ha. induction Hb as [|x before [b Hx] _ IH]; simpl.
  - now rewrite Ha.
  - now rewrite Hx, IH.
Qed.

(** X19: the amounts are converted before the dates: when, among the
    records without a missing field, some amount does not convert, [clean]
    raises the error of the first such amount, whatever the dates are,
    those of earlier records included. *)
Theorem amount_error_first {conv : Conversions}
        (df before after : list Raw.row) (r : Raw.row) (e : exn) :
  dropna df = before ++ r :: after ->
  Forall (fun x => exists q, astype_float (Raw.amount x) = Ok q) before ->
  astype_float (Raw.amount r) = Raise e ->
  clean df = Raise e.
Proof.
  intros Hk Hb Hr. unfold clean. rewrite Hk, map_app. cbn [map].
  rewrite (traverse_first_error astype_float (map col_amount before)
             (map col_amount after) (col_amount r) e); [reflexivity | | exact Hr].
  apply Forall_map. exact Hb.
Qed.

Lemma amount_error_first_witness :
  clean (conv := Reference.plain)
        [ Raw.mk 0 (Str "no date") (Str "5") (Str "Food") (Str "tea");
          Raw.mk 1 (Str "2024-01-05") (Str "abc") (Str "Food") (Str "x") ]
  = Raise ValueError.
Proof.
  apply (amount_error_first (conv := Reference.plain) _
           [Raw.mk 0 (Str "no date") (Str "5") (Str "Food") (Str "tea")] []
           (Raw.mk 1 (Str "2024-01-05") (Str "abc") (Str "Food") (Str "x"))).
  - reflexivity.
  - repeat constructor. eexists. reflexivity.
  - reflexivity.
Defined.

(** ** The exported text *)

(** X20: the text [to_csv] writes for a store whose cells hold no
    carriage return is split by the tokenizer of [read_csv] into the
    header and one line per record, each with the four field texts as
    written: a comma, a quote or a line feed inside a field neither
    splits nor merges records. *)
Theorem export_tokenizes {conv : Conversions} (store : list Raw.row) :
  Forall (fun r => Forall (fun f => cr_free f = true) (csv_fields r)) store ->
  tokenize (to_csv store) = Some (csv_columns :: map csv_fields store).
Proof.
  intro H. unfold to_csv. apply tokenize_csv_lines. constructor.
  - split; [simpl; lia | repeat constructor].
  - apply Forall_map. eapply Forall_impl; [|exact H].
    intros r Hr. split; [simpl; lia | exact Hr].
Qed.

Lemma export_tokenizes_witness :
  tokenize (to_csv (conv := Reference.plain) awkward_description)
  = Some (csv_columns :: map (csv_fields (conv := Reference.plain)) awkward_description).
Proof.
  apply (export_tokenizes (conv := Reference.plain) awkward_description).
  repeat constructor.
Defined.

Lemma infer_column_cells {conv : Conversions} (fs : list (option string)) (vs : list value) :
  infer_column fs = Some vs -> vs = map number_cell fs \/ vs = map text_cell fs.
Proof.
  unfold infer_column. destruct (forallb is_number fs).
  - intro H. injection H as <-. now left.
  - destruct (forallb is_bool fs); intro H; [discriminate H|].
    injection H as <-. now right.
Qed.

(** X21: whatever the import makes of the exported text, a cell whose
    text is empty or one of the markers of a missing value ("NA", "None",
    "null", "nan", ...) is read back as missing, in each of the four
    columns; the rows read back are as many as the records exported. *)
Theorem marker_text_read_as_missing {conv : Conversions}
        (store df : list Raw.row) :
  Forall (fun r => Forall (fun f => cr_free f = true) (csv_fields r)) store ->
  read_csv (to_csv store) = Some df ->
  Forall2 (fun r r' =>
             (member (csv_str (Raw.date r)) na_values = true -> Raw.date r' = NA) /\
             (member (csv_str (Raw.amount r)) na_values = true -> Raw.amount r' = NA) /\
             (member (csv_str (Raw.category r)) na_values = true -> Raw.category r' = NA) /\
             (member (csv_str (Raw.description r)) na_values = true
              -> Raw.description r' = NA))
          store df.
Proof.
  intros Hcr H. unfold read_csv in H.
  assert (Htok : tokenize (to_csv store) = Some (csv_columns :: map csv_fields store)).
  { unfold to_csv. apply tokenize_csv_lines. constructor.
    - split; [simpl; lia | repeat constructor].
    - apply Forall_map. eapply Forall_impl; [|exact Hcr].
      intros r Hr. split; [simpl; lia | exact Hr]. }
  rewrite Htok in H.
  destruct (list_eq_dec string_dec csv_columns csv_columns) as [_|N]; [|contradiction].
  destruct (forallb _ (map csv_fields store)); [|discriminate H].
  rewrite !map_map in H.
  destruct (infer_column (map (fun r => field_at 0 (csv_fields r)) store))
    as [ds|] eqn:E0; [|discriminate H].
  destruct (infer_column (map (fun r => field_at 1 (csv_fields r)) store))
    as [ams|] eqn:E1; [|discriminate H].
  destruct (infer_column (map (fun r => field_at 2 (csv_fields r)) store))
    as [cs|] eqn:E2; [|discriminate H].
  destruct (infer_column (map (fun r => field_at 3 (csv_fields r)) store))
    as [es|] eqn:E3; [|discriminate H].
  injection H as <-.
  assert (Hcol : forall j vs,
             infer_column (map (fun r => field_at j (csv_fields r)) store) = Some vs ->
             exists g : option string -> value,
               g None = NA /\ vs = map (fun r => g (field_at j (csv_fields r))) store).
  { intros j vs E. apply infer_column_cells in E as [-> | ->].
    - exists number_cell. split; [reflexivity | now rewrite map_map].
    - exists text_cell. split; [reflexivity | now rewrite map_map]. }
  destruct (Hcol 0%nat ds E0) as (g0 & N0 & ->).
  destruct (Hcol 1%nat ams E1) as (g1 & N1 & ->).
  destruct (Hcol 2%nat cs E2) as (g2 & N2 & ->).
  destruct (Hcol 3%nat es E3) as (g3 & N3 & ->).
  rewrite (frame_of_columns_map
             (fun r => g0 (field_at 0 (csv_fields r))) (fun r => g1 (field_at 1 (csv_fields r)))
             (fun r => g2 (field_at 2 (csv_fields r))) (fun r => g3 (field_at 3 (csv_fields r)))).
  clear - N0 N1 N2 N3. generalize 0.
  induction store as [|r store IH]; intro i; cbn [map relabel]; constructor.
  - unfold set_label.
    cbn [Raw.date Raw.amount Raw.category Raw.description Raw.label].
    unfold field_at, csv_fields. cbn [nth_error].
    repeat split; intro Hm; rewrite Hm; assumption.
  - apply IH.
Qed.

Lemma marker_text_read_as_missing_witness :
  Forall2 (fun r r' =>
             (member (csv_str (conv := Reference.plain) (Raw.date r)) na_values = true
              -> Raw.date r' = NA) /\
             (member (csv_str (conv := Reference.plain) (Raw.amount r)) na_values = true
              -> Raw.amount r' = NA) /\
             (member (csv_str (conv := Reference.plain) (Raw.category r)) na_values = true
              -> Raw.category r' = NA) /\
             (member (csv_str (conv := Reference.plain) (Raw.description r)) na_values = true
              -> Raw.description r' = NA))
          scenario scenario_reimported.
Proof.
  apply (marker_text_read_as_missing (conv := Reference.plain) scenario scenario_reimported).
  - repeat constructor.
  - reflexivity.
Defined.

(** ** Months in chronological order *)

Lemma digit_compare (a b : Z) :
  0 <= a <= 9 -> 0 <= b <= 9 ->
  Ascii.compare (digit_char a) (digit_char b) = (a ?= b).
Proof.
  intros Ha Hb.
  assert (Ia : In a [0; 1; 2; 3; 4; 5; 6; 7; 8; 9]) by (simpl; lia).
  assert (Ib : In b [0; 1; 2; 3; 4; 5; 6; 7; 8; 9]) by (simpl; lia).
  simpl in Ia, Ib.
  repeat (destruct Ia as [<-|Ia]; [|]); try contradiction;
    repeat (destruct Ib as [<-|Ib]; [|]); try contradiction; reflexivity.
Qed.

Lemma four_digits (y : Z) :
  0 <= y < 10000 ->
  y = 1000 * (y / 1000 mod 10) + 100 * (y / 100 mod 10) + 10 * (y / 10 mod 10) + y mod 10.
Proof. intro H. Z.div_mod_to_equations. lia. Qed.

Lemma two_digits (m : Z) : 0 <= m < 100 -> m = 10 * (m / 10 mod 10) + m mod 10.
Proof. intro H. Z.div_mod_to_equations. lia. Qed.

Lemma digit_bounds (n : Z) : 0 <= n mod 10 <= 9.
Proof. pose proof (Z.mod_pos_bound n 10). lia. Qed.

Lemma YYYY_MM_compare (y1 m1 y2 m2 : Z) :
  0 <= y1 < 10000 -> 0 <= m1 < 100 -> 0 <= y2 < 10000 -> 0 <= m2 < 100 ->
  String.compare (YYYY_MM y1 m1) (YYYY_MM y2 m2) = (y1 * 100 + m1 ?= y2 * 100 + m2).
Proof.
  intros Hy1 Hm1 Hy2 Hm2.
  pose proof (four_digits y1 Hy1) as Ey1. pose proof (four_digits y2 Hy2) as Ey2.
  pose proof (two_digits m1 Hm1) as Em1. pose proof (two_digits m2 Hm2) as Em2.
  unfold YYYY_MM. cbn [String.compare].
  change (Ascii.compare "-" "-") with Eq.
  rewrite !digit_compare by apply digit_bounds.
  pose proof (digit_bounds (y1 / 1000)). pose proof (digit_bounds (y2 / 1000)).
  pose proof (digit_bounds (y1 / 100)). pose proof (digit_bounds (y2 / 100)).
  pose proof (digit_bounds (y1 / 10)). pose proof (digit_bounds (y2 / 10)).
  pose proof (digit_bounds y1). pose proof (digit_bounds y2).
  pose proof (digit_bounds (m1 / 10)). pose proof (digit_bounds (m2 / 10)).
  pose proof (digit_bounds m1). pose proof (digit_bounds m2).
  generalize dependent (y1 / 1000 mod 10). generalize dependent (y2 / 1000 mod 10).
  generalize dependent (y1 / 100 mod 10). generalize dependent (y2 / 100 mod 10).
  generalize dependent (y1 / 10 mod 10). generalize dependent (y2 / 10 mod 10).
  generalize dependent (y1 mod 10). generalize dependent (y2 mod 10).
  generalize dependent (m1 / 10 mod 10). generalize dependent (m2 / 10 mod 10).
  generalize dependent (m1 mod 10). generalize dependent (m2 mod 10).
  intros.
  repeat match goal with
         | |- context [?a ?= ?b] =>
             is_var a; is_var b; destruct (Z.compare_spec a b)
         end;
    symmetry;
    first [ apply Z.compare_eq_iff; lia
          | apply Z.compare_lt_iff; lia
          | apply Z.compare_gt_iff; lia ].
Qed.

(** X22: the month texts are ordered as the months are: for two
    timestamps that pandas can hold, the text [%Y-%m] of the first is not
    after that of the second in code-point order exactly when its month is
    not later; with the sorted order of the month subtotals this makes
    them chronological. *)
Theorem month_text_order (t1 t2 : Timestamp) :
  valid_timestamp t1 = true -> valid_timestamp t2 = true ->
  (String.leb (strftime "%Y-%m" t1) (strftime "%Y-%m" t2) = true <->
   year (ts_date t1) < year (ts_date t2) \/
   (year (ts_date t1) = year (ts_date t2) /\ mon (ts_date t1) <= mon (ts_date t2))).
Proof.
  intros H1 H2.
  apply valid_timestamp_bounds in H1 as [Hy1 Hm1].
  apply valid_timestamp_bounds in H2 as [Hy2 Hm2].
  rewrite !strftime_year_month by lia. unfold String.leb.
  rewrite YYYY_MM_compare by lia.
  destruct (Z.compare_spec (year (ts_date t1) * 100 + mon (ts_date t1))
                           (year (ts_date t2) * 100 + mon (ts_date t2)));
    split; intro Hx; try reflexivity; try discriminate Hx; lia.
Qed.

Lemma month_text_order_witness :
  String.leb (strftime "%Y-%m" (mkts (mkdate 2023 12 31) 0))
             (strftime "%Y-%m" (mkts (mkdate 2024 1 5) 0)) = true.
Proof.
  apply (month_text_order (mkts (mkdate 2023 12 31) 0) (mkts (mkdate 2024 1 5) 0)).
  - reflexivity.
  - reflexivity.
  - left. simpl. lia.
Defined.
